(** * minigrep: chunked substring search

    A shallow embedding of [minigrep.cpp] and the properties of its
    interval arithmetic, chunking, escaping and matcher.

    Conventions of the embedding.
    - [int] is the 32-bit signed type: its values are the integers of [Z]
      that [int_range] admits, and every signed [+] and [-] of the program
      is followed by [to_int], the two's-complement wrap-around that the
      compiled program shows on overflow.
    - [std::size_t] is the 64-bit unsigned type: arithmetic on it and the
      conversions between it and [int] are modular, and are written out
      ([to_size_t], [to_int]).
    - [std::string] is a list of characters; [std::string::find] and
      [std::string::substr] follow the C++ standard, including the
      [std::out_of_range] exception of [substr].
    - A function that can throw returns an [outcome]; a [while] or [for]
      loop is unrolled a bounded number of times, and a lemma shows that
      the bound is never reached. *)

From Stdlib Require Import ZArith Bool Ascii String DecimalString Lia.
From Stdlib Require Import List Sorted.
Import ListNotations.

#[local] Open Scope Z_scope.

(** ** Machine integers *)

Definition int_min : Z := - 2 ^ 31.
Definition int_max : Z := 2 ^ 31 - 1.

Definition int_range (z : Z) : Prop := int_min <= z <= int_max.

(** Conversion of an integer value to [int] (modular since C++20), also
    the result of an [int] operation whose exact value is [z]. *)
Definition to_int (z : Z) : Z := (z + 2 ^ 31) mod 2 ^ 32 - 2 ^ 31.

(** Conversion of an integer value to [std::size_t]. *)
Definition to_size_t (z : Z) : Z := z mod 2 ^ 64.

(** [std::string::npos], the largest [std::size_t]. *)
Definition npos : Z := 2 ^ 64 - 1.

(** ** Exceptions *)

Inductive exception : Type :=
| out_of_range
| length_error.

(** The result of running a function: it returns, it throws, or the
    bounded unrolling of one of its loops was too short ([OutOfFuel], which
    the termination lemmas exclude). *)
Inductive outcome (A : Type) : Type :=
| Return (a : A)
| Throw (e : exception)
| OutOfFuel.

Arguments Return {A} a.
Arguments Throw {A} e.
Arguments OutOfFuel {A}.

Definition bind {A B : Type} (m : outcome A) (k : A -> outcome B) : outcome B :=
  match m with
  | Return a => k a
  | Throw e => Throw e
  | OutOfFuel => OutOfFuel
  end.

Notation "x <- m ;; k" := (bind m (fun x => k))
  (at level 61, m at next level, right associativity).

(** ** Strings *)

Definition std_string : Type := list ascii.

Definition lit (s : string) : std_string := list_ascii_of_string s.

Definition size_of (s : std_string) : Z := Z.of_nat (length s).

(** [starts_with s t]: the characters of [s] are the first characters of [t]. *)
Fixpoint starts_with (s t : std_string) : bool :=
  match s, t with
  | [], _ => true
  | _ :: _, [] => false
  | a :: s', b :: t' => Ascii.eqb a b && starts_with s' t'
  end.

(** Scan of [t], whose first character has index [i] in the whole string. *)
Fixpoint find_from (s t : std_string) (i : Z) : Z :=
  if starts_with s t then i
  else match t with
       | [] => npos
       | _ :: t' => find_from s t' (i + 1)
       end.

(** [contents.find(str, pos)]: the lowest index [i >= pos] at which [str]
    occurs in [contents], or [npos]. *)
Definition find (contents str : std_string) (pos : Z) : Z :=
  if size_of contents <? pos then npos
  else find_from str (skipn (Z.to_nat pos) contents) pos.

(** [s.substr(pos, count)]: throws when [pos > s.size()], and otherwise
    gives the [min(count, s.size() - pos)] characters from [pos] on. *)
Definition substr (s : std_string) (pos count : Z) : outcome std_string :=
  if size_of s <? pos then Throw out_of_range
  else
    let rlen := Z.min count (size_of s - pos) in
    Return (firstn (Z.to_nat rlen) (skipn (Z.to_nat pos) s)).

(** ** Constants *)

Definition border_size : Z := 3.
Definition chunk_size : Z := 1000000.

(** ** Range: a half-open interval *)

Module Range.

Record t : Type := mk { begin : Z; end_ : Z }.

Definition clamp (r : t) (min max : Z) : t :=
  mk (Z.max (begin r) min) (Z.min (end_ r) max).

Definition extend (r : t) (amount : Z) : t :=
  mk (to_int (begin r - amount)) (to_int (end_ r + amount)).

Definition size (r : t) : Z := to_int (end_ r - begin r).

Definition split (r : t) : option (t * t) :=
  if size r <=? chunk_size then None
  else
    let mid := to_int (begin r + chunk_size) in
    Some (mk (begin r) mid, mk mid (end_ r)).

(** [operator==] on ranges. *)
Definition eqb (l r : t) : bool :=
  (begin l =? begin r) && (end_ l =? end_ r).

(** The integers of the half-open interval. *)
Definition mem (x : Z) (r : t) : Prop := begin r <= x < end_ r.

End Range.

(** ** The file system, as far as the program observes it *)

(** The queries of [std::filesystem] are taken to answer: an error of the
    operating system during the walk of a directory (an unreadable
    sub-directory), which [recursive_directory_iterator] reports by an
    exception that [main] does not catch, is outside the model. *)

Record dir_entry : Type := mk_entry {
  entry_path : std_string;
  entry_is_regular_file : bool
}.

Record FileSystem : Type := mk_fs {
  is_regular_file : std_string -> bool;
  is_directory : std_string -> bool;
  (** the entries that a recursive walk of a directory visits *)
  recursive_directory_iterator : std_string -> list dir_entry;
  (** the bytes of a file that can be opened, [None] when it cannot *)
  file_data : std_string -> option (list ascii)
}.

(** ** File *)

Module File.

Record t : Type := mk { path : std_string; size : Z }.

(** Constructor [File(path)]: seek to the end and take [tellg()], which is
    [-1] on a stream that failed to open. *)
Definition make (fs : FileSystem) (path : std_string) : t :=
  match file_data fs path with
  | Some data => mk path (to_int (size_of data))
  | None => mk path (-1)
  end.

End File.

(** ** FileChunk *)

Module FileChunk.

Record t : Type := mk {
  file : File.t;
  search : Range.t;
  read : Range.t;
  contents : std_string
}.

(** Constructor [FileChunk(file, search)]. *)
Definition make (file : File.t) (search : Range.t) : t :=
  mk file search
     (Range.clamp (Range.extend search border_size) 0 (File.size file))
     [].

(** What [is.seekg(begin); is.read(buffer, n)] leaves in a zero-filled
    buffer of [n] characters. *)
Definition read_at (fs : FileSystem) (path : std_string) (begin : Z) (n : nat) : std_string :=
  let got :=
    match file_data fs path with
    | Some data => if begin <? 0 then [] else firstn n (skipn (Z.to_nat begin) data)
    | None => []
    end in
  got ++ repeat Ascii.zero (n - length got).

(** [fetch_contents()]; [std::vector<char> buffer(read.size())] throws
    [std::length_error] when the size is negative. *)
Definition fetch_contents (fs : FileSystem) (chunk : t) : outcome t :=
  let n := Range.size (read chunk) in
  if n <? 0 then Throw length_error
  else
    Return (mk (file chunk) (search chunk) (read chunk)
               (read_at fs (File.path (file chunk)) (Range.begin (read chunk)) (Z.to_nat n))).

End FileChunk.

(** ** Match *)

Module Match.

Record t : Type := mk {
  path : std_string;
  position : Z;
  prefix : std_string;
  suffix : std_string
}.

(** [operator<<] for a match. *)
Definition print (m : t) : std_string :=
  path m ++ lit "(" ++ lit (NilEmpty.string_of_int (Z.to_int (position m)))
         ++ lit "):" ++ prefix m ++ lit "..." ++ suffix m.

End Match.

(** ** Context of a match *)

Definition prefix (contents : std_string) (index : Z) : outcome std_string :=
  let offset := Z.max (to_int (index - border_size)) 0 in
  let count := to_int (index - offset) in
  substr contents (to_size_t offset) (to_size_t count).

Definition suffix (contents : std_string) (index : Z) : outcome std_string :=
  substr contents (to_size_t index) (to_size_t border_size).

Definition newline : ascii := "010"%char.
Definition tab : ascii := "009"%char.
Definition backslash : ascii := "\"%char.

(** One step of the loop of [transform]. *)
Definition transform_step (result : std_string) (c : ascii) : std_string :=
  if Ascii.eqb c newline then result ++ [backslash; "n"%char]
  else if Ascii.eqb c tab then result ++ [backslash; "t"%char]
  else result ++ [c].

Definition transform (string : std_string) : std_string :=
  fold_left transform_step string [].

(** ** The matcher *)

(** The lambda [to_index] of [matches]. *)
Definition to_index (chunk : FileChunk.t) (pos : Z) : Z :=
  to_int (pos - Range.begin (FileChunk.read chunk)).

(** The record that the body of the loop of [matches] pushes for the value
    [pos] of the loop variable. *)
Definition make_match (chunk : FileChunk.t) (string : std_string) (pos : Z)
  : outcome Match.t :=
  let contents := FileChunk.contents chunk in
  pre <- prefix contents (to_index chunk (to_int pos)) ;;
  suf <- suffix contents (to_index chunk (to_int (to_size_t (pos + size_of string)))) ;;
  Return (Match.mk (File.path (FileChunk.file chunk)) (to_int pos)
                   (transform pre) (transform suf)).

(** The [for] loop of [matches]; [pos] is the [std::size_t] loop variable. *)
Fixpoint matches_loop (fuel : nat) (chunk : FileChunk.t) (string : std_string)
  (pos : Z) (result : list Match.t) : outcome (list Match.t) :=
  match fuel with
  | O => OutOfFuel
  | S fuel' =>
      let contents := FileChunk.contents chunk in
      if negb (pos =? npos)
         && (pos <? to_size_t (to_index chunk (Range.end_ (FileChunk.search chunk))))
      then
        m <- make_match chunk string pos ;;
        matches_loop fuel' chunk string
          (find contents string (to_size_t (pos + 1))) (result ++ [m])
      else Return result
  end.

Definition matches (chunk : FileChunk.t) (string : std_string) : outcome (list Match.t) :=
  let contents := FileChunk.contents chunk in
  matches_loop (S (S (length contents))) chunk string
    (find contents string
          (to_size_t (to_index chunk (Range.begin (FileChunk.search chunk)))))
    [].

(** ** Files and chunks *)

Definition files (fs : FileSystem) (path : std_string) : option (list File.t) :=
  if is_regular_file fs path then Some [File.make fs path]
  else if negb (is_directory fs path) then None
  else
    Some (map (fun entry => File.make fs (entry_path entry))
              (filter entry_is_regular_file (recursive_directory_iterator fs path))).

(** The [while] loop of [chunks]; the vector [result] is [front ++ [back]]. *)
Fixpoint chunks_loop (fuel : nat) (file : File.t)
  (front : list FileChunk.t) (back : FileChunk.t) : outcome (list FileChunk.t) :=
  match fuel with
  | O => OutOfFuel
  | S fuel' =>
      match Range.split (FileChunk.search back) with
      | Some (first, second) =>
          chunks_loop fuel' file
            (front ++ [FileChunk.make file first]) (FileChunk.make file second)
      | None => Return (front ++ [back])
      end
  end.

Definition chunks (file : File.t) : outcome (list FileChunk.t) :=
  chunks_loop
    (S (Z.to_nat (Range.size (Range.mk 0 (File.size file)) / chunk_size)))
    file [] (FileChunk.make file (Range.mk 0 (File.size file))).

(** ** Searching a chunk, and the program *)

(** [search]: the lines that the task writes to [std::cout] while it holds
    the mutex. *)
Definition search (fs : FileSystem) (chunk : FileChunk.t) (string : std_string)
  : outcome (list std_string) :=
  fetched <- FileChunk.fetch_contents fs chunk ;;
  all_matches <- matches fetched string ;;
  Return (map Match.print all_matches).

Definition EXIT_SUCCESS : Z := 0.
Definition EXIT_FAILURE : Z := 1.

(** What a run of the program leaves behind: its exit status, what it wrote
    to [std::cerr], and one entry per launched task, in the order of the
    vector [futures]: the lines the task printed, or the exception that its
    future holds and nobody reads.  The blocks of lines reach [std::cout]
    in the order in which the tasks take the mutex. *)
Record process : Type := mk_process {
  exit_status : Z;
  cerr : list std_string;
  futures : list (outcome (list std_string))
}.

Definition usage : std_string :=
  lit "Usage: minigrep <directory|file> <search string>" ++ [newline].

Definition diagnostic : std_string :=
  lit "Argument 1 must be a directory or a file" ++ [newline].

(** The first loop of [main]: the chunks of all files, in order. *)
Fixpoint collect_chunks (fl : list File.t) : outcome (list FileChunk.t) :=
  match fl with
  | [] => Return []
  | file :: rest =>
      cs <- chunks file ;;
      more <- collect_chunks rest ;;
      Return (cs ++ more)
  end.

(** [main]; [argv] holds the program name and the user's arguments, so
    [argc] is its length.  Falling off the end of [main] returns 0, after
    the destructor of every future has waited for its task. *)
Definition main (fs : FileSystem) (argv : list std_string) : outcome process :=
  if negb (Z.of_nat (length argv) =? 3) then
    Return (mk_process EXIT_FAILURE [usage] [])
  else
    match files fs (nth 1 argv []) with
    | None => Return (mk_process EXIT_FAILURE [diagnostic] [])
    | Some fl =>
        all_chunks <- collect_chunks fl ;;
        Return (mk_process EXIT_SUCCESS []
                  (map (fun chunk => search fs chunk (nth 2 argv [])) all_chunks))
    end.

(** ** The escaping, in the words of the specification *)

(** A newline becomes backslash-n, a tab backslash-t, any other character
    stays as it is. *)
Definition escape_spec (c : ascii) : std_string :=
  if Ascii.eqb c newline then [backslash; "n"%char]
  else if Ascii.eqb c tab then [backslash; "t"%char]
  else [c].

(** The escaped characters, one after the other in the order of the input. *)
Definition transform_spec (s : std_string) : std_string :=
  concat (map escape_spec s).

(** ** Vocabulary for the matcher *)

(** The indices [i, i+1, ...] of [t] at which [s] starts and which are
    below [hi], in increasing order. *)
Fixpoint occurrences_from (s t : std_string) (i hi : Z) : list Z :=
  (if starts_with s t && (i <? hi) then [i] else []) ++
  match t with
  | [] => []
  | _ :: t' => occurrences_from s t' (i + 1) hi
  end.

(** The indices [p] of [contents] with [lo <= p < hi] at which [str]
    occurs, in increasing order. *)
Definition occurrences (contents str : std_string) (lo hi : Z) : list Z :=
  if size_of contents <? lo then []
  else occurrences_from str (skipn (Z.to_nat lo) contents) lo hi.

(** [str] occurs in [contents] at index [p]. *)
Definition occurs_at (contents str : std_string) (p : Z) : Prop :=
  0 <= p <= size_of contents /\
  starts_with str (skipn (Z.to_nat p) contents) = true.

(** Run [f] on the elements of a list from left to right, up to the first
    one on which it does not return. *)
Fixpoint for_each {A B : Type} (f : A -> outcome B) (l : list A) : outcome (list B) :=
  match l with
  | [] => Return []
  | a :: l' =>
      b <- f a ;;
      bs <- for_each f l' ;;
      Return (b :: bs)
  end.

(** The local index of the first offset of the search interval, and of the
    first offset after it, as the loop of [matches] computes them. *)
Definition first_index (chunk : FileChunk.t) : Z :=
  to_size_t (to_index chunk (Range.begin (FileChunk.search chunk))).

Definition limit_index (chunk : FileChunk.t) : Z :=
  to_size_t (to_index chunk (Range.end_ (FileChunk.search chunk))).

(** The characters just before index [p]: the last [border_size] ones of
    the first [p] characters, or all of them when there are fewer. *)
Definition context_before (contents : std_string) (p : Z) : std_string :=
  skipn (Z.to_nat (p - border_size)) (firstn (Z.to_nat p) contents).

(** The characters from index [e] on: the first [border_size] ones, or all
    of them when there are fewer. *)
Definition context_after (contents : std_string) (e : Z) : std_string :=
  firstn (Z.to_nat border_size) (skipn (Z.to_nat e) contents).

(** A record whose context strings hold at most [border_size] characters. *)
Definition context_within_border (m : Match.t) : Prop :=
  size_of (Match.prefix m) <= border_size /\
  size_of (Match.suffix m) <= border_size.

(** ** Vocabulary for the chunks of a file *)

(** [tiles lo hi rs]: the ranges [rs] lie end to end from [lo] to [hi];
    none is inverted and none holds more than [chunk_size] integers. *)
Inductive tiles : Z -> Z -> list Range.t -> Prop :=
| tiles_nil (lo : Z) : tiles lo lo []
| tiles_cons (r : Range.t) (hi : Z) (rest : list Range.t) :
    Range.begin r <= Range.end_ r ->
    Range.size r <= chunk_size ->
    tiles (Range.end_ r) hi rest ->
    tiles (Range.begin r) hi (r :: rest).

(** Each range begins where the one before it ends. *)
Definition contiguous (rs : list Range.t) : Prop :=
  forall (i : nat) (r r' : Range.t),
    nth_error rs i = Some r -> nth_error rs (S i) = Some r' ->
    Range.begin r' = Range.end_ r.

(** An earlier range ends at or before the beginning of a later one. *)
Definition ordered (rs : list Range.t) : Prop :=
  forall (i j : nat) (r r' : Range.t),
    (i < j)%nat -> nth_error rs i = Some r -> nth_error rs j = Some r' ->
    Range.end_ r <= Range.begin r'.

(** No integer belongs to two ranges of the list. *)
Definition pairwise_disjoint (rs : list Range.t) : Prop :=
  forall (i j : nat) (r r' : Range.t),
    i <> j -> nth_error rs i = Some r -> nth_error rs j = Some r' ->
    forall x, ~ (Range.mem x r /\ Range.mem x r').

(** The ranges hold exactly the integers of [lo, hi). *)
Definition covers (lo hi : Z) (rs : list Range.t) : Prop :=
  forall x, lo <= x < hi <-> exists r, In r rs /\ Range.mem x r.

(** The search interval lies in the read interval, which lies in the
    bytes of a file of [size] bytes. *)
Definition read_invariant (size : Z) (chunk : FileChunk.t) : Prop :=
  0 <= Range.begin (FileChunk.read chunk) <= Range.begin (FileChunk.search chunk) /\
  Range.end_ (FileChunk.search chunk) <= Range.end_ (FileChunk.read chunk) <= size.

(** The chunks [cs] are those that [chunks] returns for [file]: there is
    at least one, and when the size of the file is not negative their
    search intervals hold exactly the offsets of the file. *)
Definition chunks_of (file : File.t) (cs : list FileChunk.t) : Prop :=
  chunks file = Return cs /\
  cs <> [] /\
  (0 <= File.size file ->
   covers 0 (File.size file) (map FileChunk.search cs)).

(** A task that has ended: it has printed its lines, or it has thrown. *)
Definition completed (task : outcome (list std_string)) : Prop :=
  (exists lines, task = Return lines) \/ (exists e, task = Throw e).

(** ** Vocabulary for the further properties *)

(** The number of chunks of a file of [size] bytes. *)
Definition chunk_count (size : Z) : Z :=
  Z.max 1 ((size + chunk_size - 1) / chunk_size).

(** The chunk number [k] of a file, counted from 0: it searches the offsets
    from [k * chunk_size] up to [(k + 1) * chunk_size] or the end of the
    file. *)
Definition nth_chunk (file : File.t) (k : nat) : FileChunk.t :=
  FileChunk.make file
    (Range.mk (Z.of_nat k * chunk_size)
              (Z.min ((Z.of_nat k + 1) * chunk_size) (File.size file))).

(** The characters that [transform] escapes. *)
Definition whitespace (c : ascii) : bool :=
  Ascii.eqb c newline || Ascii.eqb c tab.

(** The record of an occurrence of [s] at offset [p] of the bytes [data] of
    the file [path]. *)
Definition expected_match (path data s : std_string) (p : Z) : Match.t :=
  Match.mk path p
    (transform (context_before data p))
    (transform (context_after data (p + size_of s))).

(** ** Sample inputs *)

Fixpoint str_eqb (a b : std_string) : bool :=
  match a, b with
  | [], [] => true
  | x :: a', y :: b' => Ascii.eqb x y && str_eqb a' b'
  | _, _ => false
  end.

(** A file system that holds one regular file and no directory. *)
Definition single_file (path data : std_string) : FileSystem :=
  mk_fs (fun p => str_eqb p path)
        (fun _ => false)
        (fun _ => [])
        (fun p => if str_eqb p path then Some data else None).

(** [before] times [y], then [str], then [after] times [y]. *)
Definition padded (before : Z) (str : std_string) (after : Z) : std_string :=
  repeat "y"%char (Z.to_nat before) ++ str ++ repeat "y"%char (Z.to_nat after).

(** A file of 2,000,000 bytes whose only [x] is at offset 1,999,995. *)
Definition two_chunk_file : FileSystem :=
  single_file (lit "big.txt") (padded 1999995 (lit "x") 4).

(** A file of 1,000,010 bytes whose only [x] is at offset 1,000,005. *)
Definition boundary_file : FileSystem :=
  single_file (lit "big.txt") (padded 1000005 (lit "x") 4).

(** A file of 1,000,010 bytes that holds [aaa] at offset 1,000,004. *)
Definition overlap_file : FileSystem :=
  single_file (lit "big.txt") (padded 1000004 (lit "aaa") 3).

(** A file of six bytes: three newlines, then [abc]. *)
Definition newlines_file : FileSystem :=
  single_file (lit "notes.txt") ([newline; newline; newline] ++ lit "abc").

(** The second chunk of a file of 1,000,010 bytes. *)
Definition second_chunk (fs : FileSystem) : outcome FileChunk.t :=
  FileChunk.fetch_contents fs
    (FileChunk.make (File.make fs (lit "big.txt")) (Range.mk 1000000 1000010)).

(** * Properties *)

(** Settle the comparisons of the goal that [lia] can decide. *)
Ltac settle_ltb :=
  repeat match goal with
         | |- context [?a <? ?b] =>
             first [ replace (a <? b) with true
                       by (symmetry; apply Z.ltb_lt; lia)
                   | replace (a <? b) with false
                       by (symmetry; apply Z.ltb_ge; lia) ]
         end.

(** ** The [static_assert]s of namespace [test] *)

Example test_clamp :
  Range.eqb (Range.clamp (Range.mk 1 3) 0 2) (Range.mk 1 2) = true.
Proof. reflexivity. Qed.

Example test_extend :
  Range.eqb (Range.extend (Range.mk 1 3) 2) (Range.mk (-1) 5) = true.
Proof. reflexivity. Qed.

Example test_size : Range.size (Range.mk 1 3) = 2.
Proof. reflexivity. Qed.

Example test_split :
  Range.split (Range.mk 0 (chunk_size + 100)) =
  Some (Range.mk 0 chunk_size, Range.mk chunk_size (chunk_size + 100)).
Proof. reflexivity. Qed.

Example test_prefix_0 : prefix (lit "abcd") 0 = Return (lit "").
Proof. reflexivity. Qed.

Example test_prefix_2 : prefix (lit "abcd") 2 = Return (lit "ab").
Proof. reflexivity. Qed.

Example test_suffix_0 : suffix (lit "abcd") 0 = Return (lit "abc").
Proof. reflexivity. Qed.

Example test_suffix_2 : suffix (lit "abcd") 2 = Return (lit "cd").
Proof. reflexivity. Qed.

Example test_transform_plain : transform (lit "abcd") = lit "abcd".
Proof. reflexivity. Qed.

Example test_transform_escapes :
  transform [tab; newline] = [backslash; "t"; backslash; "n"]%char.
Proof. reflexivity. Qed.

(** ** Machine integers *)

Lemma to_size_t_small (z : Z) : 0 <= z < 2 ^ 64 -> to_size_t z = z.
Proof. intros H. unfold to_size_t. now apply Z.mod_small. Qed.

Lemma to_size_t_nonneg (z : Z) : 0 <= to_size_t z.
Proof. unfold to_size_t. apply Z.mod_pos_bound. lia. Qed.

Lemma to_size_t_negative (z : Z) : - 2 ^ 64 <= z < 0 -> to_size_t z = z + 2 ^ 64.
Proof.
  intros H. unfold to_size_t.
  rewrite <- (Z.mod_add z 1 (2 ^ 64)) by lia.
  rewrite Z.mod_small; lia.
Qed.

Lemma to_int_small (z : Z) : int_range z -> to_int z = z.
Proof.
  unfold int_range, int_min, int_max, to_int. intros H.
  rewrite Z.mod_small; lia.
Qed.

Lemma to_int_range (z : Z) : int_range (to_int z).
Proof.
  unfold int_range, int_min, int_max, to_int.
  pose proof (Z.mod_pos_bound (z + 2 ^ 31) (2 ^ 32)). lia.
Qed.

(** An operand can be wrapped before or after the operation. *)
Lemma to_int_add_l (x y : Z) : to_int (to_int x + y) = to_int (x + y).
Proof. unfold to_int. Z.div_mod_to_equations. lia. Qed.

Lemma to_int_sub_l (x y : Z) : to_int (to_int x - y) = to_int (x - y).
Proof. unfold to_int. Z.div_mod_to_equations. lia. Qed.

Lemma to_int_sub_r (x y : Z) : to_int (x - to_int y) = to_int (x - y).
Proof. unfold to_int. Z.div_mod_to_equations. lia. Qed.

(** A wrapped value moves with its argument as long as it stays an [int]. *)
Lemma to_int_shift (x d : Z) :
  int_range (to_int x + d) -> to_int (x + d) = to_int x + d.
Proof.
  intros H. rewrite <- to_int_add_l. now apply to_int_small.
Qed.

Lemma to_int_le_nonneg (x : Z) : 0 <= x -> to_int x <= x.
Proof.
  intros H. unfold to_int.
  pose proof (Z.mod_le (x + 2 ^ 31) (2 ^ 32)). lia.
Qed.

(** ** Range *)

Lemma mem_clamp (r : Range.t) (lo hi x : Z) :
  Range.mem x (Range.clamp r lo hi) <-> Range.mem x r /\ lo <= x < hi.
Proof. unfold Range.mem, Range.clamp; simpl; lia. Qed.

(** C7: for every interval [r] and bounds [lo], [hi] (in particular when
    [lo <= hi]), [r.clamp(lo, hi)] lies in the half-open interval
    [lo, hi) (it begins at or after [lo], ends at or before [hi], and all
    its members are members of [lo, hi)), and it is a sub-interval of [r]
    (it begins at or after [r.begin], ends at or before [r.end], and all
    its members are members of [r]). *)
Theorem clamp_contained (r : Range.t) (lo hi : Z) :
  let c := Range.clamp r lo hi in
  (lo <= Range.begin c /\ Range.end_ c <= hi) /\
  (Range.begin r <= Range.begin c /\ Range.end_ c <= Range.end_ r) /\
  (forall x, Range.mem x c -> lo <= x < hi) /\
  (forall x, Range.mem x c -> Range.mem x r).
Proof.
  cbv zeta. split; [simpl; lia|]. split; [simpl; lia|].
  split; intros x Hx; apply mem_clamp in Hx; destruct Hx as [Hr Hb];
    [exact Hb | exact Hr].
Qed.

Lemma split_none (r : Range.t) :
  Range.size r <= chunk_size -> Range.split r = None.
Proof.
  intros H. unfold Range.split.
  destruct (Range.size r <=? chunk_size) eqn:E; [reflexivity|].
  apply Z.leb_gt in E. lia.
Qed.

Lemma split_some (r : Range.t) :
  chunk_size < Range.size r ->
  Range.split r =
  Some (Range.mk (Range.begin r) (to_int (Range.begin r + chunk_size)),
        Range.mk (to_int (Range.begin r + chunk_size)) (Range.end_ r)).
Proof.
  intros H. unfold Range.split.
  destruct (Range.size r <=? chunk_size) eqn:E; [|reflexivity].
  apply Z.leb_le in E. lia.
Qed.

(** The size of a range of [int]s that is not inverted is exact unless it
    exceeds [int_max], and then it is negative. *)
Lemma size_exact (r : Range.t) :
  int_range (Range.begin r) -> int_range (Range.end_ r) ->
  Range.begin r <= Range.end_ r ->
  0 <= Range.size r ->
  Range.size r = Range.end_ r - Range.begin r.
Proof.
  unfold Range.size, int_range, int_min, int_max, to_int.
  intros Hb He Hle H. Z.div_mod_to_equations. lia.
Qed.

(** C4: for an interval [r] of [int]s ([r.begin <= r.end]), [r.split()]
    is [None] when [r.size() <= CHUNK_SIZE]; otherwise it is a pair
    [(left, right)] with [left = {r.begin, r.begin + CHUNK_SIZE}], of size
    [CHUNK_SIZE], [right.begin = left.end], [right.end = r.end], the
    members of [left] and [right] together are those of [r], and the two
    sizes add up to [r.size()]. *)
Theorem split_spec (r : Range.t)
  (Hbegin : int_range (Range.begin r))
  (Hend : int_range (Range.end_ r))
  (Hinterval : Range.begin r <= Range.end_ r) :
  (Range.size r <= chunk_size -> Range.split r = None) /\
  (chunk_size < Range.size r ->
   exists left right,
     Range.split r = Some (left, right) /\
     left = Range.mk (Range.begin r) (Range.begin r + chunk_size) /\
     Range.size left = chunk_size /\
     Range.begin right = Range.end_ left /\
     Range.end_ right = Range.end_ r /\
     (forall x, Range.mem x r <-> Range.mem x left \/ Range.mem x right) /\
     Range.size left + Range.size right = Range.size r).
Proof.
  split; [apply split_none|].
  intros H.
  assert (Hsize : Range.size r = Range.end_ r - Range.begin r)
    by (apply size_exact; try assumption; unfold chunk_size in *; lia).
  assert (Hmid : to_int (Range.begin r + chunk_size) = Range.begin r + chunk_size).
  { apply to_int_small. rewrite Hsize in H.
    unfold int_range, int_min, int_max, chunk_size in *. lia. }
  assert (Hfits : int_range (Range.end_ r - Range.begin r))
    by (rewrite <- Hsize; apply to_int_range).
  eexists _, _. split; [apply split_some; exact H|].
  rewrite Hmid. rewrite Hsize in *.
  unfold Range.size, Range.mem; cbn [Range.begin Range.end_].
  replace (Range.begin r + chunk_size - Range.begin r) with chunk_size by lia.
  rewrite (to_int_small chunk_size) by (vm_compute; split; discriminate).
  rewrite (to_int_small (Range.end_ r - (Range.begin r + chunk_size)))
    by (unfold int_range, int_min, int_max, chunk_size in *; lia).
  split; [reflexivity|]. split; [reflexivity|]. split; [reflexivity|].
  split; [reflexivity|].
  split; [intros x; unfold chunk_size in *; lia | lia].
Qed.

(** C4, at a range that is not split and at one that is. *)
Lemma split_spec_witness :
  Range.split (Range.mk 5 7) = None /\
  exists left right,
    Range.split (Range.mk 0 1000100) = Some (left, right) /\
    left = Range.mk 0 (0 + chunk_size) /\
    Range.size left = chunk_size /\
    Range.begin right = Range.end_ left /\
    Range.end_ right = 1000100 /\
    (forall x, Range.mem x (Range.mk 0 1000100) <->
               Range.mem x left \/ Range.mem x right) /\
    Range.size left + Range.size right = Range.size (Range.mk 0 1000100).
Proof.
  split.
  - apply (proj1 (split_spec (Range.mk 5 7)
                    ltac:(vm_compute; split; discriminate)
                    ltac:(vm_compute; split; discriminate)
                    ltac:(vm_compute; discriminate))).
    vm_compute. discriminate.
  - apply (proj2 (split_spec (Range.mk 0 1000100)
                    ltac:(vm_compute; split; discriminate)
                    ltac:(vm_compute; split; discriminate)
                    ltac:(vm_compute; discriminate))).
    reflexivity.
Defined.

(** ** Escaping *)

Lemma transform_step_spec (result : std_string) (c : ascii) :
  transform_step result c = result ++ escape_spec c.
Proof.
  unfold transform_step, escape_spec.
  destruct (Ascii.eqb c newline); [reflexivity|].
  destruct (Ascii.eqb c tab); reflexivity.
Qed.

Lemma transform_loop_spec (s acc : std_string) :
  fold_left transform_step s acc = acc ++ transform_spec s.
Proof.
  revert acc. induction s as [|c s IH]; intros acc; simpl.
  - now rewrite app_nil_r.
  - rewrite IH, transform_step_spec. unfold transform_spec. simpl.
    now rewrite app_assoc.
Qed.

Lemma transform_app (s t : std_string) :
  transform (s ++ t) = transform s ++ transform t.
Proof.
  unfold transform. rewrite !transform_loop_spec. simpl.
  unfold transform_spec. now rewrite map_app, concat_app.
Qed.

(** C6: [transform] replaces each newline by backslash-n, each tab by
    backslash-t, keeps every other character, and keeps the order: its
    result is the concatenation, in input order, of the escaped characters. *)
Theorem transform_escapes (s : std_string) :
  transform s = transform_spec s /\
  escape_spec newline = [backslash; "n"%char] /\
  escape_spec tab = [backslash; "t"%char] /\
  (forall c, c <> newline -> c <> tab -> escape_spec c = [c]) /\
  (forall t, transform (s ++ t) = transform s ++ transform t).
Proof.
  split; [unfold transform; now rewrite transform_loop_spec|].
  split; [reflexivity|]. split; [reflexivity|].
  split; [|intros t; apply transform_app].
  intros c Hn Ht. unfold escape_spec.
  destruct (Ascii.eqb_spec c newline); [contradiction|].
  destruct (Ascii.eqb_spec c tab); [contradiction|reflexivity].
Qed.

(** ** Chunks *)

Lemma tiles_app (a b c : Z) (l l' : list Range.t) :
  tiles a b l -> tiles b c l' -> tiles a c (l ++ l').
Proof.
  induction 1 as [lo | r hi rest Hle Hsz Hrest IH]; intros Hl'; simpl.
  - exact Hl'.
  - constructor; auto.
Qed.

Lemma tiles_le (a b : Z) (l : list Range.t) : tiles a b l -> a <= b.
Proof. induction 1; lia. Qed.

Lemma tiles_bounds (a b : Z) (l : list Range.t) :
  tiles a b l ->
  forall r, In r l ->
    a <= Range.begin r /\ Range.begin r <= Range.end_ r /\ Range.end_ r <= b /\
    Range.size r <= chunk_size.
Proof.
  induction 1 as [lo | r hi rest Hle Hsz Hrest IH]; intros q Hin.
  - destruct Hin.
  - apply tiles_le in Hrest as Hle'.
    destruct Hin as [<- | Hin]; [lia|].
    specialize (IH q Hin). lia.
Qed.

Lemma tiles_covers (a b : Z) (l : list Range.t) : tiles a b l -> covers a b l.
Proof.
  induction 1 as [lo | r hi rest Hle Hsz Hrest IH]; intros x.
  - split; [lia | intros (r & [] & _)].
  - apply tiles_le in Hrest as Hle'. split.
    + intros Hx. destruct (Z_lt_ge_dec x (Range.end_ r)) as [Hlt | Hge].
      * exists r. split; [now left | unfold Range.mem; lia].
      * destruct (proj1 (IH x)) as (q & Hq & Hm); [lia|].
        exists q. split; [now right | exact Hm].
    + intros (q & [<- | Hq] & Hm).
      * unfold Range.mem in Hm. lia.
      * assert (Range.end_ r <= x < hi) by (apply IH; eauto). lia.
Qed.

Lemma tiles_contiguous (a b : Z) (l : list Range.t) : tiles a b l -> contiguous l.
Proof.
  induction 1 as [lo | r hi rest Hle Hsz Hrest IH]; intros i q q' Hq Hq'.
  - destruct i; discriminate.
  - destruct i as [|i]; simpl in Hq, Hq'.
    + injection Hq as <-. destruct Hrest; simpl in Hq'; [discriminate|].
      now injection Hq' as <-.
    + eapply IH; eassumption.
Qed.

Lemma tiles_ordered (a b : Z) (l : list Range.t) : tiles a b l -> ordered l.
Proof.
  induction 1 as [lo | r hi rest Hle Hsz Hrest IH]; intros i j q q' Hij Hq Hq'.
  - destruct i; discriminate.
  - destruct j as [|j]; [lia|]. simpl in Hq'.
    destruct i as [|i]; simpl in Hq.
    + injection Hq as <-. apply nth_error_In in Hq'.
      pose proof (tiles_bounds _ _ _ Hrest _ Hq'). lia.
    + eapply IH; [|eassumption..]. lia.
Qed.

Lemma ordered_disjoint (l : list Range.t) : ordered l -> pairwise_disjoint l.
Proof.
  intros Hord i j r r' Hij Hr Hr' x [Hx Hx']. unfold Range.mem in *.
  destruct (Nat.lt_ge_cases i j) as [Hlt | Hge].
  - pose proof (Hord i j r r' Hlt Hr Hr'). lia.
  - assert (Hlt : (j < i)%nat) by lia.
    pose proof (Hord j i r' r Hlt Hr' Hr). lia.
Qed.

(** The constructor extends a range of offsets that ends at least
    [border_size] below [int_max] without overflow. *)
Lemma make_read (file : File.t) (r : Range.t) :
  0 <= Range.begin r -> Range.begin r <= Range.end_ r ->
  Range.end_ r <= int_max - border_size ->
  FileChunk.read (FileChunk.make file r)
  = Range.mk (Z.max (Range.begin r - border_size) 0)
             (Z.min (Range.end_ r + border_size) (File.size file)).
Proof.
  intros H0 Hle He.
  unfold FileChunk.make, Range.clamp, Range.extend.
  cbn [FileChunk.read Range.begin Range.end_].
  rewrite !to_int_small
    by (unfold int_range, int_min, int_max, border_size in *; lia).
  reflexivity.
Qed.

Lemma make_read_invariant (file : File.t) (r : Range.t) :
  0 <= Range.begin r -> Range.begin r <= Range.end_ r ->
  Range.end_ r <= File.size file ->
  File.size file <= int_max - border_size ->
  read_invariant (File.size file) (FileChunk.make file r).
Proof.
  intros H0 Hle Hsz Hmax. unfold read_invariant.
  rewrite make_read by lia.
  cbn [FileChunk.search FileChunk.make Range.begin Range.end_].
  unfold border_size in *. lia.
Qed.

(** The loop of [chunks] ends, whatever the last chunk it starts on. *)
Lemma chunks_loop_returns (file : File.t) (fuel : nat) :
  forall (front : list FileChunk.t) (b : Z),
    Z.max 0 (Range.size (Range.mk b (File.size file)) / chunk_size)
    < Z.of_nat fuel ->
    exists l,
      chunks_loop fuel file front
        (FileChunk.make file (Range.mk b (File.size file))) = Return l /\
      l <> [].
Proof.
  induction fuel as [|fuel IH]; intros front b Hfuel; [lia|].
  cbn [chunks_loop FileChunk.make FileChunk.search].
  destruct (Z_le_gt_dec (Range.size (Range.mk b (File.size file))) chunk_size)
    as [Hsmall | Hbig].
  - rewrite split_none by exact Hsmall. eexists. split; [reflexivity|].
    now destruct front.
  - rewrite split_some by lia. cbn [Range.begin Range.end_].
    apply IH. unfold Range.size in *. cbn [Range.begin Range.end_] in *.
    rewrite to_int_sub_r.
    replace (File.size file - (b + chunk_size))
      with (File.size file - b + - chunk_size) by lia.
    pose proof (to_int_range (File.size file - b)) as Hr.
    rewrite to_int_shift
      by (unfold int_range, int_min, int_max, chunk_size in *; lia).
    unfold chunk_size in *. Z.div_mod_to_equations. lia.
Qed.

(** The loop of [chunks], started on a last chunk that reaches the end of
    the file, with enough fuel for the rest of the file. *)
Lemma chunks_loop_spec (file : File.t) (fuel : nat) :
  forall (front : list FileChunk.t) (b : Z),
    0 <= b <= File.size file ->
    b + Range.size (Range.mk b (File.size file)) <= int_max ->
    tiles 0 b (map FileChunk.search front) ->
    Z.max 0 (Range.size (Range.mk b (File.size file)) / chunk_size)
    < Z.of_nat fuel ->
    exists l,
      chunks_loop fuel file front
        (FileChunk.make file (Range.mk b (File.size file))) = Return l /\
      l <> [] /\
      tiles 0 (File.size file) (map FileChunk.search l).
Proof.
  induction fuel as [|fuel IH]; intros front b Hb Hmax Htiles Hfuel; [lia|].
  - cbn [chunks_loop FileChunk.make FileChunk.search].
    destruct (Z_le_gt_dec (Range.size (Range.mk b (File.size file))) chunk_size)
      as [Hsmall | Hbig].
    + rewrite split_none by exact Hsmall.
      eexists. split; [reflexivity|].
      split; [now destruct front|].
      rewrite map_app. eapply tiles_app; [exact Htiles|]. cbn [map].
      apply (tiles_cons (Range.mk b (File.size file)));
        [cbn [Range.begin Range.end_]; lia | exact Hsmall | constructor].
    + rewrite split_some by lia. cbn [Range.begin Range.end_].
      unfold Range.size in *. cbn [Range.begin Range.end_] in *.
      pose proof (to_int_le_nonneg (File.size file - b)) as Hw.
      pose proof (to_int_range (File.size file - b)) as Hr.
      assert (Hmid : to_int (b + chunk_size) = b + chunk_size)
        by (apply to_int_small;
            unfold int_range, int_min, int_max, chunk_size in *; lia).
      assert (Hnext : to_int (File.size file - (b + chunk_size))
                      = to_int (File.size file - b) - chunk_size).
      { replace (File.size file - (b + chunk_size))
          with (File.size file - b + - chunk_size) by lia.
        apply to_int_shift.
        unfold int_range, int_min, int_max, chunk_size in *. lia. }
      rewrite Hmid. apply IH.
      * unfold chunk_size in *. lia.
      * cbn [Range.begin Range.end_]. rewrite Hnext. lia.
      * rewrite map_app. eapply tiles_app; [exact Htiles|]. cbn [map].
        apply (tiles_cons (Range.mk b (b + chunk_size)));
          [ cbn [Range.begin Range.end_]; unfold chunk_size; lia
          | unfold Range.size; cbn [Range.begin Range.end_];
            replace (b + chunk_size - b) with chunk_size by lia;
            vm_compute; discriminate
          | constructor ].
      * cbn [Range.begin Range.end_]. rewrite Hnext.
        unfold chunk_size in *. Z.div_mod_to_equations. lia.
Qed.

Lemma chunks_spec (file : File.t) :
  0 <= File.size file ->
  exists l,
    chunks file = Return l /\
    l <> [] /\
    tiles 0 (File.size file) (map FileChunk.search l).
Proof.
  intros H. unfold chunks. apply chunks_loop_spec.
  - lia.
  - pose proof (to_int_range (File.size file - 0)) as Hr.
    unfold Range.size, int_range in *. cbn [Range.begin Range.end_]. lia.
  - constructor.
  - lia.
Qed.

(** [chunks] returns for every file, also for one whose size is negative. *)
Lemma chunks_terminates (file : File.t) :
  exists l, chunks file = Return l /\ l <> [].
Proof.
  unfold chunks. apply chunks_loop_returns. lia.
Qed.

(** Every chunk of the result was built by the constructor for this file
    and its own search range. *)
Lemma chunks_loop_made (file : File.t) (fuel : nat) :
  forall (front : list FileChunk.t) (r : Range.t) (l : list FileChunk.t),
    Forall (fun c => c = FileChunk.make file (FileChunk.search c)) front ->
    chunks_loop fuel file front (FileChunk.make file r) = Return l ->
    Forall (fun c => c = FileChunk.make file (FileChunk.search c)) l.
Proof.
  induction fuel as [|fuel IH]; intros front r l Hfront H; [discriminate|].
  cbn [chunks_loop FileChunk.make FileChunk.search] in H.
  destruct (Range.split r) as [[first second]|].
  - eapply IH; [|exact H]. apply Forall_app. split; [exact Hfront|].
    repeat constructor.
  - injection H as <-. apply Forall_app. split; [exact Hfront|].
    repeat constructor.
Qed.

(** C2: for a file of size [S >= 0], [chunks] returns a non-empty sequence
    of chunks whose search intervals are contiguous (each begins where the
    one before ends), ordered, pairwise disjoint, cover [0, S) exactly, and
    each hold at most [CHUNK_SIZE] offsets. *)
Theorem chunks_partition (file : File.t) (Hsize : 0 <= File.size file) :
  exists l,
    chunks file = Return l /\
    l <> [] /\
    contiguous (map FileChunk.search l) /\
    ordered (map FileChunk.search l) /\
    pairwise_disjoint (map FileChunk.search l) /\
    covers 0 (File.size file) (map FileChunk.search l) /\
    Forall (fun chunk => Range.size (FileChunk.search chunk) <= chunk_size) l.
Proof.
  destruct (chunks_spec file Hsize) as (l & Hl & Hne & Ht).
  exists l. split; [exact Hl|]. split; [exact Hne|].
  split; [eapply tiles_contiguous; exact Ht|].
  split; [eapply tiles_ordered; exact Ht|].
  split; [eapply ordered_disjoint, tiles_ordered; exact Ht|].
  split; [eapply tiles_covers; exact Ht|].
  apply Forall_forall. intros c Hc.
  eapply (tiles_bounds _ _ _ Ht). now apply in_map.
Qed.

Lemma chunks_partition_witness :
  exists l,
    chunks (File.mk (lit "big.txt") 2500000) = Return l /\
    l <> [] /\
    contiguous (map FileChunk.search l) /\
    ordered (map FileChunk.search l) /\
    pairwise_disjoint (map FileChunk.search l) /\
    covers 0 2500000 (map FileChunk.search l) /\
    Forall (fun chunk => Range.size (FileChunk.search chunk) <= chunk_size) l.
Proof.
  apply (chunks_partition (File.mk (lit "big.txt") 2500000)). simpl. lia.
Defined.

(** C10, as the specification states it, fails for a file of [int_max]
    bytes: in the constructor of its last chunk [search.end + 3] wraps
    around, and the read interval ends at -2147483646, below
    [search.end]; so the chunks of this file do not all have the
    invariant. *)
Lemma read_invariant_overflows :
  let file := File.mk (lit "huge.bin") 2147483647 in
  let last := FileChunk.make file (Range.mk 2147000000 2147483647) in
  0 <= File.size file /\
  (l <- chunks file ;; Return (nth_error l 2147)) = Return (Some last) /\
  FileChunk.read last = Range.mk 2146999997 (-2147483646) /\
  ~ (Range.end_ (FileChunk.search last) <= Range.end_ (FileChunk.read last)
     <= File.size file) /\
  ~ (exists l,
        chunks file = Return l /\
        Forall (fun chunk =>
                  0 <= Range.begin (FileChunk.read chunk)
                    <= Range.begin (FileChunk.search chunk) /\
                  Range.end_ (FileChunk.search chunk)
                    <= Range.end_ (FileChunk.read chunk) <= File.size file) l).
Proof.
  cbv zeta.
  assert (Hlast : (l <- chunks (File.mk (lit "huge.bin") 2147483647) ;;
                   Return (nth_error l 2147))
                  = Return (Some (FileChunk.make (File.mk (lit "huge.bin") 2147483647)
                                                 (Range.mk 2147000000 2147483647))))
    by (vm_compute; reflexivity).
  split; [vm_compute; discriminate|].
  split; [exact Hlast|].
  split; [vm_compute; reflexivity|].
  split; [vm_compute; intros [H _]; now apply H|].
  intros (l & Hl & Hall).
  rewrite Hl in Hlast.
  assert (Hin : In (FileChunk.make (File.mk (lit "huge.bin") 2147483647)
                                   (Range.mk 2147000000 2147483647)) l).
  { apply (nth_error_In l 2147).
    exact (f_equal (fun o => match o with Return a => a | _ => None end) Hlast). }
  rewrite Forall_forall in Hall. apply Hall in Hin as [_ [H _]].
  vm_compute in H. now apply H.
Qed.

(** C10, amended: every chunk that [chunks] returns for a file of size
    between 0 and [int_max - border_size] has
    [0 <= read.begin <= search.begin] and
    [search.end <= read.end <= file.size]. *)
Theorem chunks_read_invariant (file : File.t)
  (Hsize : 0 <= File.size file)
  (Hmax : File.size file <= int_max - border_size) :
  exists l,
    chunks file = Return l /\
    Forall (fun chunk =>
              0 <= Range.begin (FileChunk.read chunk)
                <= Range.begin (FileChunk.search chunk) /\
              Range.end_ (FileChunk.search chunk)
                <= Range.end_ (FileChunk.read chunk) <= File.size file) l.
Proof.
  destruct (chunks_spec file Hsize) as (l & Hl & _ & Ht).
  exists l. split; [exact Hl|].
  assert (Hmade : Forall (fun c => c = FileChunk.make file (FileChunk.search c)) l)
    by (eapply chunks_loop_made; [constructor | exact Hl]).
  apply Forall_forall. intros chunk Hin.
  rewrite Forall_forall in Hmade. rewrite (Hmade chunk Hin).
  pose proof (tiles_bounds _ _ _ Ht (FileChunk.search chunk)
                (in_map FileChunk.search l chunk Hin)) as (H0 & Hle & He & _).
  apply (make_read_invariant file (FileChunk.search chunk)); assumption.
Qed.

Lemma chunks_read_invariant_witness :
  exists l,
    chunks (File.mk (lit "big.txt") 2500000) = Return l /\
    Forall (fun chunk =>
              0 <= Range.begin (FileChunk.read chunk)
                <= Range.begin (FileChunk.search chunk) /\
              Range.end_ (FileChunk.search chunk)
                <= Range.end_ (FileChunk.read chunk) <= 2500000) l.
Proof.
  apply (chunks_read_invariant (File.mk (lit "big.txt") 2500000));
    vm_compute; discriminate.
Defined.

(** ** Strings *)

Lemma starts_with_length (s t : std_string) :
  starts_with s t = true -> (length s <= length t)%nat.
Proof.
  revert t. induction s as [|a s IH]; intros [|b t] H; simpl in *;
    try lia; try discriminate.
  apply andb_prop in H as [_ H]. apply IH in H. lia.
Qed.

Lemma occurrences_from_above (s t : std_string) (i hi : Z) :
  hi <= i -> occurrences_from s t i hi = [].
Proof.
  revert i. induction t as [|c t IH]; intros i Hi; simpl; settle_ltb;
    rewrite andb_false_r; [reflexivity|].
  apply IH. lia.
Qed.

Lemma occurrences_from_head (s t : std_string) (i hi : Z) :
  starts_with s t = true -> i < hi ->
  occurrences_from s t i hi =
  i :: match t with
       | [] => []
       | _ :: t' => occurrences_from s t' (i + 1) hi
       end.
Proof.
  intros Hs Hi. destruct t; simpl in *; rewrite Hs; settle_ltb; reflexivity.
Qed.

(** What [find_from] returns: [npos] when [s] starts nowhere in [t], and
    otherwise the index of the first place where it does. *)
Lemma find_from_spec (s t : std_string) :
  forall i,
    (find_from s t i = npos /\ forall hi, occurrences_from s t i hi = []) \/
    (exists k, (k <= length t)%nat /\
       find_from s t i = i + Z.of_nat k /\
       starts_with s (skipn k t) = true /\
       forall hi, occurrences_from s t i hi =
                  occurrences_from s (skipn k t) (i + Z.of_nat k) hi).
Proof.
  induction t as [|c t IH]; intros i.
  - cbn [find_from occurrences_from]. destruct (starts_with s []) eqn:E.
    + right. exists 0%nat. cbn [skipn]. rewrite Z.add_0_r.
      split; [lia|]. split; [reflexivity|]. split; [exact E|].
      intros hi. cbn [occurrences_from]. now rewrite E.
    + left. split; reflexivity.
  - cbn [find_from occurrences_from]. destruct (starts_with s (c :: t)) eqn:E.
    + right. exists 0%nat. cbn [skipn]. rewrite Z.add_0_r.
      split; [simpl; lia|]. split; [reflexivity|]. split; [exact E|].
      intros hi. cbn [occurrences_from]. now rewrite E.
    + destruct (IH (i + 1)) as [[Hf Ho] | (k & Hk & Hf & Hs & Ho)].
      * left. split; [exact Hf|]. intros hi. now rewrite Ho.
      * right. exists (S k). cbn [skipn length].
        replace (i + Z.of_nat (S k)) with (i + 1 + Z.of_nat k) by lia.
        split; [lia|]. split; [exact Hf|]. split; [exact Hs|].
        intros hi. now rewrite Ho.
Qed.

Lemma skipn_S_tail {A : Type} (n : nat) (l : list A) (c : A) (t : list A) :
  skipn n l = c :: t -> skipn (S n) l = t.
Proof.
  revert l. induction n as [|n IH]; intros l H.
  - simpl in H. now subst l.
  - destruct l as [|a l]; [discriminate|]. simpl in H. simpl. now apply IH.
Qed.

Lemma occurrences_next (contents s : std_string) (q hi : Z) (k : nat) :
  0 <= q ->
  match skipn k (skipn (Z.to_nat q) contents) with
  | [] => []
  | _ :: t' => occurrences_from s t' (q + Z.of_nat k + 1) hi
  end = occurrences contents s (q + Z.of_nat k + 1) hi.
Proof.
  intros Hq. unfold occurrences, size_of. rewrite skipn_skipn.
  destruct (skipn (k + Z.to_nat q) contents) as [|c t'] eqn:E.
  - assert (length (skipn (k + Z.to_nat q) contents) = 0%nat) as Hlen
      by now rewrite E.
    rewrite length_skipn in Hlen.
    settle_ltb. reflexivity.
  - assert (length (skipn (k + Z.to_nat q) contents) = S (length t')) as Hlen
      by now rewrite E.
    rewrite length_skipn in Hlen.
    settle_ltb.
    replace (Z.to_nat (q + Z.of_nat k + 1)) with (S (k + Z.to_nat q)) by lia.
    now rewrite (skipn_S_tail _ _ _ _ E).
Qed.

(** ** The loop of the matcher *)

Section Matcher.

Variable chunk : FileChunk.t.
Variable s : std_string.

Let contents : std_string := FileChunk.contents chunk.

(** A [std::string] holds fewer than [npos] characters. *)
Hypothesis Hsize : size_of contents < npos.

(** The loop of [matches] pushes, from left to right, the record of every
    occurrence from [q] on that lies below the limit, and stops at the
    first record whose construction throws. *)
Lemma matches_loop_spec (fuel : nat) :
  forall (q : Z) (acc : list Match.t),
    0 <= q ->
    size_of contents + 1 - q < Z.of_nat fuel ->
    (1 <= fuel)%nat ->
    matches_loop fuel chunk s (find contents s q) acc =
    (ms <- for_each (make_match chunk s)
             (occurrences contents s q (limit_index chunk)) ;;
     Return (acc ++ ms)).
Proof.
  induction fuel as [|fuel IH]; intros q acc Hq Hfuel H1; [lia|].
  cbn [matches_loop]. fold contents. fold (limit_index chunk).
  unfold find, occurrences.
  destruct (size_of contents <? q) eqn:Eq.
  { cbn. now rewrite app_nil_r. }
  apply Z.ltb_ge in Eq.
  destruct (find_from_spec s (skipn (Z.to_nat q) contents) q)
    as [[Hf Ho] | (k & Hk & Hf & Hs & Ho)]; rewrite Hf, Ho.
  { cbn. now rewrite app_nil_r. }
  rewrite length_skipn in Hk.
  assert (Hr : q + Z.of_nat k <= size_of contents) by (unfold size_of in *; lia).
  replace (q + Z.of_nat k =? npos) with false
    by (symmetry; apply Z.eqb_neq; lia).
  cbn [negb andb].
  destruct (q + Z.of_nat k <? limit_index chunk) eqn:El.
  - apply Z.ltb_lt in El.
    rewrite occurrences_from_head by assumption.
    rewrite occurrences_next by assumption.
    cbn [for_each].
    rewrite to_size_t_small by (unfold npos in Hsize; lia).
    destruct (make_match chunk s (q + Z.of_nat k)) as [m | e |];
      cbn [bind]; try reflexivity.
    fold (find contents s (q + Z.of_nat k + 1)).
    rewrite IH by lia.
    destruct (for_each _ _) as [ms | e |]; cbn [bind]; try reflexivity.
    now rewrite <- app_assoc.
  - apply Z.ltb_ge in El.
    rewrite occurrences_from_above by assumption.
    cbn. now rewrite app_nil_r.
Qed.

(** The matcher, in one equation: it builds the record of every occurrence
    whose local index lies between the two local indices of the search
    interval, from left to right. *)
Lemma matches_eq :
  matches chunk s =
  for_each (make_match chunk s)
    (occurrences contents s (first_index chunk) (limit_index chunk)).
Proof.
  unfold matches. fold contents. fold (first_index chunk).
  rewrite matches_loop_spec.
  - now destruct (for_each _ _).
  - apply to_size_t_nonneg.
  - pose proof (to_size_t_nonneg
                  (to_index chunk (Range.begin (FileChunk.search chunk)))).
    unfold first_index, size_of in *. lia.
  - lia.
Qed.

(** [matches] returns or throws: its loop ends. *)
Lemma matches_terminates : matches chunk s <> OutOfFuel.
Proof.
  rewrite matches_eq.
  induction (occurrences _ _ _ _) as [|p ps IH]; cbn; [discriminate|].
  destruct (make_match chunk s p) as [m | e |] eqn:Em; cbn; try discriminate.
  - destruct (for_each _ ps); cbn; try discriminate. now apply IH.
  - unfold make_match in Em.
    destruct (prefix _ _) as [pre | e |] eqn:Ep; cbn in Em; try discriminate.
    + destruct (suffix _ _) as [suf | e |] eqn:Es; cbn in Em; try discriminate.
      unfold suffix, substr in Es. destruct (_ <? _) in Es; discriminate.
    + unfold prefix, substr in Ep. destruct (_ <? _) in Ep; discriminate.
Qed.

End Matcher.

(** ** Occurrences *)

Lemma in_occurrences_from (s t : std_string) (hi p : Z) :
  forall i,
    In p (occurrences_from s t i hi) <->
    exists k, (k <= length t)%nat /\ p = i + Z.of_nat k /\ p < hi /\
              starts_with s (skipn k t) = true.
Proof.
  induction t as [|c t IH]; intros i; cbn [occurrences_from];
    rewrite in_app_iff.
  - split.
    + intros [H | []].
      destruct (starts_with s []) eqn:E; [|destruct H].
      destruct (i <? hi) eqn:El; [|destruct H].
      destruct H as [<- | []]. apply Z.ltb_lt in El.
      exists 0%nat. cbn [skipn]. repeat split; auto; lia.
    + intros (k & Hk & -> & Hlt & Hs). left.
      assert (k = 0%nat) as -> by (simpl in Hk; lia).
      cbn [skipn] in Hs. rewrite Hs, Z.add_0_r. settle_ltb. now left.
  - rewrite IH. split.
    + intros [H | (k & Hk & -> & Hlt & Hs)].
      * destruct (starts_with s (c :: t)) eqn:E; [|destruct H].
        destruct (i <? hi) eqn:El; [|destruct H].
        destruct H as [<- | []]. apply Z.ltb_lt in El.
        exists 0%nat. cbn [skipn]. repeat split; auto; simpl; lia.
      * exists (S k). cbn [skipn length]. repeat split; auto; lia.
    + intros ([|k] & Hk & -> & Hlt & Hs).
      * left. cbn [skipn] in Hs. rewrite Hs, Z.add_0_r. settle_ltb.
        now left.
      * right. exists k. cbn [skipn length] in *. repeat split; auto; lia.
Qed.

(** The list [occurrences] holds exactly the occurrences between its two
    bounds. *)
Lemma in_occurrences (contents s : std_string) (lo hi p : Z) :
  0 <= lo ->
  In p (occurrences contents s lo hi) <->
  lo <= p < hi /\ occurs_at contents s p.
Proof.
  intros Hlo. unfold occurrences, occurs_at, size_of.
  destruct (Z.of_nat (length contents) <? lo) eqn:E.
  - apply Z.ltb_lt in E. split; [intros [] | lia].
  - apply Z.ltb_ge in E. rewrite in_occurrences_from. split.
    + intros (k & Hk & -> & Hlt & Hs).
      rewrite length_skipn in Hk. rewrite skipn_skipn in Hs.
      replace (Z.to_nat (lo + Z.of_nat k)) with (k + Z.to_nat lo)%nat by lia.
      repeat split; auto; lia.
    + intros ([Hlop Hphi] & [H0 Hsz] & Hs).
      exists (Z.to_nat (p - lo)). rewrite length_skipn, skipn_skipn.
      replace (Z.to_nat (p - lo) + Z.to_nat lo)%nat with (Z.to_nat p) by lia.
      repeat split; auto; lia.
Qed.

Lemma occurrences_from_sorted (s t : std_string) (hi : Z) :
  forall i, StronglySorted Z.lt (occurrences_from s t i hi).
Proof.
  induction t as [|c t IH]; intros i; cbn [occurrences_from].
  - rewrite app_nil_r. destruct (_ && _); repeat constructor.
  - destruct (_ && _); cbn [app]; [|apply IH].
    constructor; [apply IH|].
    apply Forall_forall. intros p Hp.
    apply in_occurrences_from in Hp as (k & _ & -> & _). lia.
Qed.

(** The occurrences are listed from left to right, each once. *)
Lemma occurrences_sorted (contents s : std_string) (lo hi : Z) :
  StronglySorted Z.lt (occurrences contents s lo hi).
Proof.
  unfold occurrences. destruct (_ <? _); [constructor|].
  apply occurrences_from_sorted.
Qed.

Lemma occurs_at_end (contents s : std_string) (p : Z) :
  occurs_at contents s p -> p + size_of s <= size_of contents.
Proof.
  intros [Hp Hs]. apply starts_with_length in Hs.
  rewrite length_skipn in Hs. unfold size_of in *. lia.
Qed.

(** ** Results of [for_each] *)

Lemma for_each_returns {A B : Type} (f : A -> outcome B) (g : A -> B) (l : list A) :
  (forall a, In a l -> f a = Return (g a)) ->
  for_each f l = Return (map g l).
Proof.
  induction l as [|a l IH]; intros H; cbn; [reflexivity|].
  rewrite (H a) by now left. cbn.
  rewrite IH by (intros b Hb; apply H; now right). reflexivity.
Qed.

Lemma for_each_inv {A B : Type} (f : A -> outcome B) (l : list A) (bs : list B) :
  for_each f l = Return bs -> Forall2 (fun a b => f a = Return b) l bs.
Proof.
  revert bs. induction l as [|a l IH]; intros bs H; cbn in H.
  - injection H as <-. constructor.
  - destruct (f a) as [b | e |] eqn:Ea; cbn in H; try discriminate.
    destruct (for_each f l) as [bs' | e |]; cbn in H; try discriminate.
    injection H as <-. constructor; auto.
Qed.

(** ** Context of a match *)

Lemma prefix_spec (contents : std_string) (index : Z) :
  0 <= index <= size_of contents -> size_of contents <= int_max ->
  prefix contents index = Return (context_before contents index).
Proof.
  intros Hi Hsz. unfold prefix, substr, context_before, border_size, int_max in *.
  rewrite (to_int_small (index - 3))
    by (unfold int_range, int_min, int_max; lia).
  rewrite (to_int_small (index - _))
    by (unfold int_range, int_min, int_max; lia).
  rewrite !to_size_t_small by lia.
  settle_ltb.
  rewrite firstn_skipn_comm.
  replace (Z.to_nat (Z.max (index - 3) 0)) with (Z.to_nat (index - 3)) by lia.
  replace (Z.to_nat (index - 3) + Z.to_nat _)%nat with (Z.to_nat index) by lia.
  reflexivity.
Qed.

Lemma suffix_spec (contents : std_string) (index : Z) :
  0 <= index <= size_of contents -> size_of contents < npos ->
  suffix contents index = Return (context_after contents index).
Proof.
  intros Hi Hsz. unfold suffix, substr, context_after, border_size, npos in *.
  rewrite !to_size_t_small by lia.
  settle_ltb.
  f_equal.
  destruct (Z_le_gt_dec 3 (size_of contents - index)) as [Hle | Hgt].
  - now rewrite Z.min_l by lia.
  - rewrite Z.min_r by lia.
    rewrite !firstn_all2; try reflexivity;
      rewrite length_skipn; unfold size_of in *; lia.
Qed.

Lemma context_before_length (contents : std_string) (p : Z) :
  size_of (context_before contents p) <= border_size.
Proof.
  unfold context_before, size_of, border_size.
  rewrite length_skipn, length_firstn. lia.
Qed.

Lemma context_after_length (contents : std_string) (e : Z) :
  size_of (context_after contents e) <= border_size.
Proof.
  unfold context_after, size_of, border_size. rewrite length_firstn. lia.
Qed.

Lemma escape_spec_length (c : ascii) : (length (escape_spec c) <= 2)%nat.
Proof.
  unfold escape_spec. destruct (Ascii.eqb c newline); [simpl; lia|].
  destruct (Ascii.eqb c tab); simpl; lia.
Qed.

(** Escaping at most doubles the length. *)
Lemma transform_length (s : std_string) :
  size_of (transform s) <= 2 * size_of s.
Proof.
  unfold transform. rewrite (transform_loop_spec s []). cbn [app].
  unfold size_of, transform_spec.
  induction s as [|c s IH]; cbn [map concat]; [simpl; lia|].
  rewrite length_app. pose proof (escape_spec_length c). simpl length. lia.
Qed.

(** In a chunk whose read interval begins at offset 0, the record of an
    occurrence at index [p] holds [p] and the escaped context of the
    occurrence. *)
Lemma make_match_first (chunk : FileChunk.t) (s : std_string) (p : Z) :
  Range.begin (FileChunk.read chunk) = 0 ->
  size_of (FileChunk.contents chunk) <= int_max ->
  occurs_at (FileChunk.contents chunk) s p ->
  make_match chunk s p =
  Return (Match.mk (File.path (FileChunk.file chunk)) p
            (transform (context_before (FileChunk.contents chunk) p))
            (transform (context_after (FileChunk.contents chunk) (p + size_of s)))).
Proof.
  intros Hb Hsz Hocc. pose proof (occurs_at_end _ _ _ Hocc) as Hend.
  destruct Hocc as [Hp _].
  assert (0 <= size_of s) by (unfold size_of; lia).
  unfold make_match, to_index. rewrite Hb, !Z.sub_0_r.
  unfold int_max in Hsz.
  rewrite (to_size_t_small (p + size_of s)) by lia.
  rewrite !(to_int_small p), !(to_int_small (p + size_of s))
    by (unfold int_range, int_min, int_max; lia).
  rewrite prefix_spec by (unfold int_max; lia).
  rewrite suffix_spec by (unfold npos; lia).
  reflexivity.
Qed.

(** The matcher on a chunk whose read interval begins at offset 0 (the
    first chunk of a file): it returns the records of all occurrences whose
    index lies in the search interval, from left to right. *)
Lemma matches_first (chunk : FileChunk.t) (s : std_string) :
  Range.begin (FileChunk.read chunk) = 0 ->
  size_of (FileChunk.contents chunk) <= int_max ->
  matches chunk s =
  Return (map (fun p =>
                 Match.mk (File.path (FileChunk.file chunk)) p
                   (transform (context_before (FileChunk.contents chunk) p))
                   (transform (context_after (FileChunk.contents chunk) (p + size_of s))))
              (occurrences (FileChunk.contents chunk) s
                 (first_index chunk) (limit_index chunk))).
Proof.
  intros Hb Hsz. rewrite matches_eq by (unfold int_max, npos in *; lia).
  apply for_each_returns. intros p Hp.
  apply in_occurrences in Hp; [|apply to_size_t_nonneg].
  apply make_match_first; tauto.
Qed.

(** Whatever the read interval, a record that the matcher returns holds the
    index of an occurrence in [contents], converted to [int]. *)
Lemma matches_positions (chunk : FileChunk.t) (s : std_string) (ms : list Match.t) :
  size_of (FileChunk.contents chunk) < npos ->
  matches chunk s = Return ms ->
  map Match.position ms =
  map to_int (occurrences (FileChunk.contents chunk) s
                (first_index chunk) (limit_index chunk)).
Proof.
  intros Hsz H. rewrite matches_eq in H by assumption.
  apply for_each_inv in H.
  induction H as [|p m ps ms Hm _ IH]; [reflexivity|].
  cbn [map]. rewrite IH. f_equal.
  unfold make_match in Hm.
  destruct (prefix _ _); cbn in Hm; try discriminate.
  destruct (suffix _ _); cbn in Hm; try discriminate.
  now injection Hm as <-.
Qed.

(** C5, as the specification states it, fails: the three newlines before
    [abc] make a prefix of six characters. *)
Lemma escaped_context_exceeds_border :
  exists chunk m,
    FileChunk.fetch_contents newlines_file
      (FileChunk.make (File.make newlines_file (lit "notes.txt")) (Range.mk 0 6))
    = Return chunk /\
    matches chunk (lit "abc") = Return [m] /\
    Match.prefix m = [backslash; "n"; backslash; "n"; backslash; "n"]%char /\
    ~ context_within_border m.
Proof.
  eexists _, _. split; [reflexivity|]. split; [vm_compute; reflexivity|].
  split; [reflexivity|].
  unfold context_within_border. vm_compute. intros [H _]. now apply H.
Qed.

(** C5, amended: in a chunk whose read interval begins at offset 0, every
    reported match has as prefix the escaping of the at most [BORDER]
    characters just before the match, and as suffix the escaping of the at
    most [BORDER] characters just after it (fewer at the ends of the
    contents); after escaping each holds at most [2 * BORDER] characters. *)
Theorem context_is_escaped_border (chunk : FileChunk.t) (s : std_string)
  (Hread : Range.begin (FileChunk.read chunk) = 0)
  (Hsize : size_of (FileChunk.contents chunk) <= int_max) :
  exists ms,
    matches chunk s = Return ms /\
    forall m, In m ms ->
      let contents := FileChunk.contents chunk in
      let p := Match.position m in
      occurs_at contents s p /\
      Match.prefix m = transform (context_before contents p) /\
      Match.suffix m = transform (context_after contents (p + size_of s)) /\
      size_of (context_before contents p) <= border_size /\
      size_of (context_after contents (p + size_of s)) <= border_size /\
      size_of (Match.prefix m) <= 2 * border_size /\
      size_of (Match.suffix m) <= 2 * border_size.
Proof.
  eexists. split; [apply matches_first; assumption|].
  intros m Hm. apply in_map_iff in Hm as (p & <- & Hp).
  apply in_occurrences in Hp as [_ Hocc]; [|apply to_size_t_nonneg].
  cbn [Match.position Match.prefix Match.suffix]. cbv zeta.
  pose proof (context_before_length (FileChunk.contents chunk) p).
  pose proof (context_after_length (FileChunk.contents chunk) (p + size_of s)).
  pose proof (transform_length (context_before (FileChunk.contents chunk) p)).
  pose proof (transform_length
                (context_after (FileChunk.contents chunk) (p + size_of s))).
  repeat split; try assumption; try apply Hocc; lia.
Qed.

Lemma context_is_escaped_border_witness :
  exists ms,
    matches (FileChunk.mk (File.mk (lit "f") 7) (Range.mk 0 7) (Range.mk 0 7)
                          (lit "xxabcxx")) (lit "abc") = Return ms /\
    forall m, In m ms ->
      let contents := lit "xxabcxx" in
      let p := Match.position m in
      occurs_at contents (lit "abc") p /\
      Match.prefix m = transform (context_before contents p) /\
      Match.suffix m = transform (context_after contents (p + 3)) /\
      size_of (context_before contents p) <= border_size /\
      size_of (context_after contents (p + 3)) <= border_size /\
      size_of (Match.prefix m) <= 2 * border_size /\
      size_of (Match.suffix m) <= 2 * border_size.
Proof.
  apply (context_is_escaped_border
           (FileChunk.mk (File.mk (lit "f") 7) (Range.mk 0 7) (Range.mk 0 7)
                         (lit "xxabcxx")) (lit "abc")).
  - reflexivity.
  - vm_compute. discriminate.
Defined.

(** The testable properties of the matcher in the specification. *)
Example test_matches_abcabc :
  matches (FileChunk.mk (File.mk (lit "f") 6) (Range.mk 0 6) (Range.mk 0 6)
                        (lit "abcabc")) (lit "abc")
  = Return [Match.mk (lit "f") 0 (lit "") (lit "abc");
            Match.mk (lit "f") 3 (lit "abc") (lit "")].
Proof. reflexivity. Qed.

Example test_matches_context :
  matches (FileChunk.mk (File.mk (lit "f") 7) (Range.mk 0 7) (Range.mk 0 7)
                        (lit "xxabcxx")) (lit "abc")
  = Return [Match.mk (lit "f") 2 (lit "xx") (lit "xx")].
Proof. reflexivity. Qed.

Example test_matches_overlap :
  matches (FileChunk.mk (File.mk (lit "f") 3) (Range.mk 0 3) (Range.mk 0 3)
                        (lit "aaa")) (lit "aa")
  = Return [Match.mk (lit "f") 0 (lit "") (lit "a");
            Match.mk (lit "f") 1 (lit "a") (lit "")].
Proof. reflexivity. Qed.

(** ** The sample files *)

Lemma str_eqb_refl (a : std_string) : str_eqb a a = true.
Proof.
  induction a as [|c a IH]; [reflexivity|].
  cbn [str_eqb]. now rewrite Ascii.eqb_refl, IH.
Qed.

Lemma starts_with_app (s t : std_string) : starts_with s (s ++ t) = true.
Proof.
  induction s as [|c s IH]; [reflexivity|].
  cbn [starts_with app]. now rewrite Ascii.eqb_refl, IH.
Qed.

Lemma size_of_app (s t : std_string) : size_of (s ++ t) = size_of s + size_of t.
Proof. unfold size_of. rewrite length_app. lia. Qed.

Lemma size_of_padded (before after : Z) (str : std_string) :
  0 <= before -> 0 <= after ->
  size_of (padded before str after) = before + size_of str + after.
Proof.
  intros Hb Ha. unfold padded. rewrite !size_of_app.
  unfold size_of. rewrite !repeat_length. lia.
Qed.

(** Where the sample files hold their string. *)
Lemma occurs_at_padded (before after : Z) (u s v : std_string) :
  0 <= before ->
  occurs_at (padded before (u ++ s ++ v) after) s (before + size_of u).
Proof.
  intros Hb. unfold occurs_at, padded, size_of.
  split.
  - rewrite !length_app, repeat_length. lia.
  - rewrite <- !app_assoc.
    rewrite (app_assoc (repeat _ _) u).
    rewrite skipn_app, skipn_all2
      by (rewrite length_app, repeat_length; lia).
    rewrite length_app, repeat_length.
    replace (Z.to_nat (before + Z.of_nat (length u))
             - (Z.to_nat before + length u))%nat with 0%nat by lia.
    cbn [skipn app]. apply starts_with_app.
Qed.

Lemma file_make_single (path data : std_string) :
  File.make (single_file path data) path = File.mk path (to_int (size_of data)).
Proof.
  unfold File.make, single_file. cbn [file_data].
  now rewrite str_eqb_refl.
Qed.

(** ** The matcher on a chunk that does not begin at offset 0 *)

(** [prefix] returns or throws [std::out_of_range]. *)
Lemma prefix_outcome (contents : std_string) (index : Z) :
  (exists pre, prefix contents index = Return pre) \/
  prefix contents index = Throw out_of_range.
Proof.
  unfold prefix, substr. destruct (_ <? _); eauto.
Qed.

(** Building the record of an occurrence throws when the occurrence ends
    at an index below [read.begin]: the index passed to [suffix] is then
    negative. *)
Lemma make_match_throws (chunk : FileChunk.t) (s : std_string) (p : Z) :
  size_of (FileChunk.contents chunk) <= int_max ->
  Range.begin (FileChunk.read chunk) <= int_max ->
  occurs_at (FileChunk.contents chunk) s p ->
  p + size_of s < Range.begin (FileChunk.read chunk) ->
  make_match chunk s p = Throw out_of_range.
Proof.
  intros Hsz Hb Hocc Hlt. pose proof (occurs_at_end _ _ _ Hocc) as Hend.
  destruct Hocc as [Hp _].
  assert (0 <= size_of s) by (unfold size_of; lia).
  unfold make_match.
  destruct (prefix_outcome (FileChunk.contents chunk)
              (to_index chunk (to_int p))) as [(pre & ->) | ->];
    [|reflexivity].
  cbn [bind]. unfold to_index, suffix, substr, border_size.
  unfold int_max in *.
  rewrite (to_size_t_small (p + size_of s)) by lia.
  rewrite to_int_sub_l.
  rewrite (to_int_small (p + size_of s - _))
    by (unfold int_range, int_min, int_max; lia).
  rewrite to_size_t_negative by lia.
  settle_ltb. reflexivity.
Qed.

(** The matcher throws when the first occurrence in its search interval
    ends at an index below [read.begin]. *)
Lemma matches_throws (chunk : FileChunk.t) (s : std_string) (q : Z) (qs : list Z) :
  size_of (FileChunk.contents chunk) <= int_max ->
  Range.begin (FileChunk.read chunk) <= int_max ->
  occurrences (FileChunk.contents chunk) s (first_index chunk) (limit_index chunk)
  = q :: qs ->
  q + size_of s < Range.begin (FileChunk.read chunk) ->
  matches chunk s = Throw out_of_range.
Proof.
  intros Hsz Hb E Hlt.
  rewrite matches_eq by (unfold npos, int_max in *; lia).
  assert (Hq : In q (q :: qs)) by now left.
  rewrite <- E in Hq. apply in_occurrences in Hq; [|apply to_size_t_nonneg].
  rewrite E. cbn [for_each]. rewrite make_match_throws; tauto.
Qed.

(** In a chunk that reads from an offset beyond the length of its contents,
    as every chunk of a file from the third on does, the matcher throws as
    soon as the search interval holds an occurrence. *)
Lemma matches_throws_beyond (chunk : FileChunk.t) (s : std_string) (p : Z) :
  size_of (FileChunk.contents chunk) <= int_max ->
  size_of (FileChunk.contents chunk) < Range.begin (FileChunk.read chunk) <= int_max ->
  first_index chunk <= p < limit_index chunk ->
  occurs_at (FileChunk.contents chunk) s p ->
  matches chunk s = Throw out_of_range.
Proof.
  intros Hsz Hb Hp Hocc.
  assert (Hin : In p (occurrences (FileChunk.contents chunk) s
                        (first_index chunk) (limit_index chunk)))
    by (apply in_occurrences; [apply to_size_t_nonneg | tauto]).
  destruct (occurrences _ _ _ _) as [|q qs] eqn:E; [destruct Hin|].
  assert (Hq : In q (q :: qs)) by now left.
  rewrite <- E in Hq. apply in_occurrences in Hq; [|apply to_size_t_nonneg].
  apply (matches_throws chunk s q qs); try tauto; try lia.
  destruct Hq as [_ Hq]. apply occurs_at_end in Hq. lia.
Qed.


(** C1: the file of 2,000,000 bytes has an [x] at offset 1,999,995; its
    second chunk reads from offset 999,997 on, and its record of the match
    holds 999,998, the index in [contents], as position, so the program
    prints [big.txt(999998):y...yyy]. *)
Theorem position_is_index_in_contents :
  let fs := two_chunk_file in
  let file := File.make fs (lit "big.txt") in
  File.size file = 2000000 /\
  occurs_at (padded 1999995 (lit "x") 4) (lit "x") 1999995 /\
  (cs <- chunks file ;; Return (map FileChunk.search cs, map FileChunk.read cs))
  = Return ([Range.mk 0 1000000; Range.mk 1000000 2000000],
            [Range.mk 0 1000003; Range.mk 999997 2000000]) /\
  (chunk <- FileChunk.fetch_contents fs
              (FileChunk.make file (Range.mk 1000000 2000000)) ;;
   ms <- matches chunk (lit "x") ;;
   Return (ms, map Match.print ms))
  = Return ([Match.mk (lit "big.txt") 999998 (lit "y") (lit "yyy")],
            [lit "big.txt(999998):y...yyy"]).
Proof.
  cbv zeta.
  assert (Hfile : File.make two_chunk_file (lit "big.txt")
                  = File.mk (lit "big.txt") 2000000).
  { unfold two_chunk_file. rewrite file_make_single.
    rewrite size_of_padded by lia. reflexivity. }
  split; [now rewrite Hfile|].
  split; [exact (occurs_at_padded 1999995 4 [] (lit "x") [] ltac:(lia))|].
  split; [rewrite Hfile; reflexivity|].
  vm_compute. reflexivity.
Qed.

(** C3: the file of 1,000,010 bytes has an [x] at offset 1,000,005, inside
    the search interval of the second chunk and inside what that chunk
    reads; the first chunk reports nothing, the second finds the occurrence
    at index 8 of its contents and throws while building the record, so no
    chunk reports the occurrence. *)
Theorem boundary_match_is_lost :
  let fs := boundary_file in
  let file := File.make fs (lit "big.txt") in
  File.size file = 1000010 /\
  occurs_at (padded 1000005 (lit "x") 4) (lit "x") 1000005 /\
  (cs <- chunks file ;; Return (map FileChunk.search cs, map FileChunk.read cs))
  = Return ([Range.mk 0 1000000; Range.mk 1000000 1000010],
            [Range.mk 0 1000003; Range.mk 999997 1000010]) /\
  (chunk <- second_chunk fs ;;
   Return (FileChunk.contents chunk, matches chunk (lit "x")))
  = Return (lit "yyyyyyyyxyyyy", Throw out_of_range) /\
  main fs [lit "minigrep"; lit "big.txt"; lit "x"]
  = Return (mk_process EXIT_SUCCESS [] [Return []; Throw out_of_range]).
Proof.
  cbv zeta.
  assert (Hfile : File.make boundary_file (lit "big.txt")
                  = File.mk (lit "big.txt") 1000010).
  { unfold boundary_file. rewrite file_make_single.
    rewrite size_of_padded by lia. reflexivity. }
  split; [now rewrite Hfile|].
  split; [exact (occurs_at_padded 1000005 4 [] (lit "x") [] ltac:(lia))|].
  split; [rewrite Hfile; reflexivity|].
  vm_compute. split; reflexivity.
Qed.

(** C9: the file of 1,000,010 bytes holds [aaa] at offset 1,000,004, so
    [aa] occurs at 1,000,004 and at 1,000,005, both in the search interval
    of the second chunk; that chunk throws at the first of them, and
    neither is reported. *)
Theorem overlapping_matches_are_lost :
  let fs := overlap_file in
  let file := File.make fs (lit "big.txt") in
  File.size file = 1000010 /\
  occurs_at (padded 1000004 (lit "aaa") 3) (lit "aa") 1000004 /\
  occurs_at (padded 1000004 (lit "aaa") 3) (lit "aa") 1000005 /\
  (chunk <- second_chunk fs ;;
   Return (FileChunk.search chunk, FileChunk.read chunk,
           FileChunk.contents chunk, matches chunk (lit "aa")))
  = Return (Range.mk 1000000 1000010, Range.mk 999997 1000010,
            lit "yyyyyyyaaayyy", Throw out_of_range) /\
  main fs [lit "minigrep"; lit "big.txt"; lit "aa"]
  = Return (mk_process EXIT_SUCCESS [] [Return []; Throw out_of_range]).
Proof.
  cbv zeta.
  assert (Hfile : File.make overlap_file (lit "big.txt")
                  = File.mk (lit "big.txt") 1000010).
  { unfold overlap_file. rewrite file_make_single.
    rewrite size_of_padded by lia. reflexivity. }
  split; [now rewrite Hfile|].
  split; [exact (occurs_at_padded 1000004 3 [] (lit "aa") (lit "a") ltac:(lia))|].
  split; [exact (occurs_at_padded 1000004 3 (lit "a") (lit "aa") [] ltac:(lia))|].
  vm_compute. split; reflexivity.
Qed.

(** ** The program *)

Lemma file_make_range (fs : FileSystem) (path : std_string) :
  int_range (File.size (File.make fs path)).
Proof.
  unfold File.make. destruct (file_data fs path); cbn [File.size].
  - apply to_int_range.
  - vm_compute. split; discriminate.
Qed.

Lemma read_at_length (fs : FileSystem) (path : std_string) (begin : Z) (n : nat) :
  length (FileChunk.read_at fs path begin n) = n.
Proof.
  unfold FileChunk.read_at.
  set (got := match file_data fs path with Some _ => _ | None => _ end).
  assert (length got <= n)%nat.
  { subst got. destruct (file_data fs path); [|simpl; lia].
    destruct (begin <? 0); [simpl; lia|]. rewrite length_firstn. lia. }
  rewrite length_app, repeat_length. lia.
Qed.

Lemma files_sizes (fs : FileSystem) (path : std_string) (fl : list File.t) :
  files fs path = Some fl ->
  Forall (fun file => int_range (File.size file)) fl.
Proof.
  unfold files. destruct (is_regular_file fs path).
  - intros [= <-]. constructor; [apply file_make_range | constructor].
  - destruct (is_directory fs path); [|discriminate]. intros [= <-].
    apply Forall_map, Forall_forall. intros entry _. apply file_make_range.
Qed.

Lemma chunks_of_exists (file : File.t) : exists cs, chunks_of file cs.
Proof.
  destruct (chunks_terminates file) as (cs & Hcs & Hne).
  exists cs. split; [exact Hcs|]. split; [exact Hne|].
  intros H0. destruct (chunks_spec file H0) as (l & Hl & _ & Ht).
  rewrite Hcs in Hl. injection Hl as <-. eapply tiles_covers; exact Ht.
Qed.

(** The first loop of [main] collects the chunks of every file, file after
    file. *)
Lemma collect_chunks_spec (fl : list File.t) :
  exists css,
    Forall2 chunks_of fl css /\
    collect_chunks fl = Return (concat css).
Proof.
  induction fl as [|file fl (css & Hall & Hcollect)]; cbn [collect_chunks].
  - exists []. split; [constructor | reflexivity].
  - destruct (chunks_of_exists file) as (cs & Hcs).
    exists (cs :: css). split; [constructor; assumption|].
    destruct Hcs as (-> & _). rewrite Hcollect. reflexivity.
Qed.

(** A task ends: it prints its lines, or it throws. *)
Lemma search_completes (fs : FileSystem) (chunk : FileChunk.t) (s : std_string) :
  completed (search fs chunk s).
Proof.
  unfold completed, search, FileChunk.fetch_contents.
  destruct (_ <? 0) eqn:En; [right; eexists; reflexivity|].
  apply Z.ltb_ge in En. cbn [bind].
  match goal with
  | |- context [matches ?c s] =>
      pose proof (matches_terminates c s) as Hm;
      destruct (matches c s); cbn [bind]; eauto
  end.
  exfalso. apply Hm; [|reflexivity].
  cbn [FileChunk.contents]. unfold size_of. rewrite read_at_length.
  pose proof (to_int_range (Range.end_ (FileChunk.read chunk)
                            - Range.begin (FileChunk.read chunk))).
  unfold Range.size, npos, int_range, int_max in *. lia.
Qed.

(** C8: with an argument count other than two user arguments the program
    prints the usage text and exits with failure; with a path that is
    neither a regular file nor a directory it prints the diagnostic and
    exits with failure; in both cases it launches no task.  Otherwise it
    launches, for every file that [files] gives and for every chunk that
    [chunks] returns for that file, one task that searches the chunk; the
    chunks of a file hold all its offsets; every task ends, by printing its
    lines or by throwing; and the program exits with success, whatever the
    tasks found. *)
Theorem main_exit_status (fs : FileSystem) (argv : list std_string) :
  (length argv <> 3%nat ->
   main fs argv = Return (mk_process EXIT_FAILURE [usage] [])) /\
  (length argv = 3%nat ->
   is_regular_file fs (nth 1 argv []) = false ->
   is_directory fs (nth 1 argv []) = false ->
   main fs argv = Return (mk_process EXIT_FAILURE [diagnostic] [])) /\
  (length argv = 3%nat ->
   is_regular_file fs (nth 1 argv []) = true \/
   is_directory fs (nth 1 argv []) = true ->
   exists fl css,
     files fs (nth 1 argv []) = Some fl /\
     Forall2 chunks_of fl css /\
     main fs argv =
     Return (mk_process EXIT_SUCCESS []
               (map (fun chunk => search fs chunk (nth 2 argv [])) (concat css))) /\
     Forall (fun chunk => completed (search fs chunk (nth 2 argv [])))
            (concat css)) /\
  EXIT_FAILURE <> EXIT_SUCCESS.
Proof.
  unfold main. repeat split.
  - intros Hargc.
    replace (Z.of_nat (length argv) =? 3) with false
      by (symmetry; apply Z.eqb_neq; lia).
    reflexivity.
  - intros Hargc Hfile Hdir. rewrite Hargc. cbn [Z.of_nat Z.eqb negb].
    unfold files. rewrite Hfile, Hdir. reflexivity.
  - intros Hargc Hpath. rewrite Hargc.
    replace (negb (Z.of_nat 3 =? 3)) with false by reflexivity.
    assert (exists fl, files fs (nth 1 argv []) = Some fl) as (fl & Hfl).
    { unfold files. destruct (is_regular_file fs (nth 1 argv [])); [eauto|].
      destruct Hpath as [Hpath | Hpath]; [discriminate|].
      rewrite Hpath. eexists. reflexivity. }
    destruct (collect_chunks_spec fl) as (css & Hall & Hcollect).
    exists fl, css. rewrite Hfl, Hcollect. cbn [bind].
    split; [reflexivity|]. split; [exact Hall|]. split; [reflexivity|].
    apply Forall_forall. intros chunk _. apply search_completes.
  - discriminate.
Qed.

Lemma main_exit_status_witness :
  main newlines_file [lit "minigrep"; lit "notes.txt"]
  = Return (mk_process EXIT_FAILURE [usage] []) /\
  main newlines_file [lit "minigrep"; lit "missing.txt"; lit "abc"]
  = Return (mk_process EXIT_FAILURE [diagnostic] []) /\
  exists fl css,
    files newlines_file (lit "notes.txt") = Some fl /\
    Forall2 chunks_of fl css /\
    main newlines_file [lit "minigrep"; lit "notes.txt"; lit "zzz"] =
    Return (mk_process EXIT_SUCCESS []
              (map (fun chunk => search newlines_file chunk (lit "zzz"))
                   (concat css))) /\
    Forall (fun chunk => completed (search newlines_file chunk (lit "zzz")))
           (concat css).
Proof.
  split; [|split].
  - apply (proj1 (main_exit_status newlines_file
                    [lit "minigrep"; lit "notes.txt"])).
    simpl. lia.
  - apply (proj1 (proj2 (main_exit_status newlines_file
                    [lit "minigrep"; lit "missing.txt"; lit "abc"])));
      reflexivity.
  - apply (proj1 (proj2 (proj2 (main_exit_status newlines_file
                    [lit "minigrep"; lit "notes.txt"; lit "zzz"]))));
      [reflexivity | left; reflexivity].
Defined.

(** The testable properties of the program in the specification: an
    invalid path, an empty file, a file without a match, a file with one. *)
Example test_main_invalid_path :
  main newlines_file [lit "minigrep"; lit "missing.txt"; lit "abc"]
  = Return (mk_process EXIT_FAILURE [diagnostic] []).
Proof. reflexivity. Qed.

Example test_main_empty_file :
  main (single_file (lit "empty.txt") []) [lit "minigrep"; lit "empty.txt"; lit "abc"]
  = Return (mk_process EXIT_SUCCESS [] [Return []]).
Proof. reflexivity. Qed.

Example test_main_no_match :
  main newlines_file [lit "minigrep"; lit "notes.txt"; lit "zzz"]
  = Return (mk_process EXIT_SUCCESS [] [Return []]).
Proof. reflexivity. Qed.

Example test_main_match :
  main newlines_file [lit "minigrep"; lit "notes.txt"; lit "abc"]
  = Return (mk_process EXIT_SUCCESS []
              [Return [lit "notes.txt(3):\n\n\n..."]]).
Proof. reflexivity. Qed.

(** A file that cannot be opened has size [-1]; its task throws, and the
    program still exits with success. *)
Example test_main_unreadable_file :
  main (mk_fs (fun _ => true) (fun _ => false) (fun _ => []) (fun _ => None))
       [lit "minigrep"; lit "locked.txt"; lit "abc"]
  = Return (mk_process EXIT_SUCCESS [] [Throw length_error]).
Proof. reflexivity. Qed.

(** * Further properties *)

(** ** Range *)

(** X1: [clamp] is the intersection with [min, max): an integer belongs to
    the clamped range exactly when it belongs to the range and to
    [min, max).  Clamping twice changes nothing more, and a range that lies
    between the two bounds is left as it is. *)
Theorem clamp_intersection (r : Range.t) (lo hi : Z) :
  (forall x, Range.mem x (Range.clamp r lo hi) <-> Range.mem x r /\ lo <= x < hi) /\
  Range.clamp (Range.clamp r lo hi) lo hi = Range.clamp r lo hi /\
  (lo <= Range.begin r -> Range.end_ r <= hi -> Range.clamp r lo hi = r).
Proof.
  split; [intros x; apply mem_clamp|]. split.
  - unfold Range.clamp. cbn [Range.begin Range.end_]. f_equal; lia.
  - intros Hlo Hhi. destruct r as [b e]. unfold Range.clamp.
    cbn [Range.begin Range.end_] in *. f_equal; lia.
Qed.

(** X2: on a range of [int]s, [extend] changes the size by twice the
    amount, exactly as long as the new size is an [int] and wrapped around
    otherwise; two extensions equal one extension by the [int] sum of the
    amounts, an extension by 0 changes nothing, and extending by the
    negated amount undoes an extension. *)
Theorem extend_composes (r : Range.t) (a b : Z)
  (Hbegin : int_range (Range.begin r))
  (Hend : int_range (Range.end_ r)) :
  Range.size (Range.extend r a) = to_int (Range.size r + 2 * a) /\
  (int_range (Range.size r + 2 * a) ->
   Range.size (Range.extend r a) = Range.size r + 2 * a) /\
  Range.extend (Range.extend r a) b = Range.extend r (to_int (a + b)) /\
  Range.extend r 0 = r /\
  Range.extend (Range.extend r a) (to_int (- a)) = r.
Proof.
  destruct r as [rb re]. cbn [Range.begin Range.end_] in *.
  assert (Hsize : Range.size (Range.extend (Range.mk rb re) a)
                  = to_int (Range.size (Range.mk rb re) + 2 * a)).
  { unfold Range.size, Range.extend. cbn [Range.begin Range.end_].
    rewrite to_int_sub_l, to_int_sub_r, to_int_add_l. f_equal. lia. }
  split; [exact Hsize|].
  split; [intros Hfits; rewrite Hsize; now apply to_int_small|].
  unfold Range.extend. cbn [Range.begin Range.end_].
  split; [|split].
  - f_equal.
    + rewrite to_int_sub_l, to_int_sub_r. f_equal. lia.
    + rewrite to_int_add_l, (Z.add_comm re (to_int (a + b))), to_int_add_l.
      f_equal. lia.
  - rewrite Z.sub_0_r, Z.add_0_r, !to_int_small by assumption. reflexivity.
  - f_equal.
    + rewrite to_int_sub_l, to_int_sub_r.
      replace (rb - a - - a) with rb by lia. now apply to_int_small.
    + rewrite to_int_add_l, (Z.add_comm (re + a)), to_int_add_l.
      replace (- a + (re + a)) with re by lia. now apply to_int_small.
Qed.

Lemma extend_composes_witness :
  Range.size (Range.extend (Range.mk 10 20) 3) = Range.size (Range.mk 10 20) + 2 * 3.
Proof.
  apply (extend_composes (Range.mk 10 20) 3 0);
    vm_compute; split; discriminate.
Defined.

(** X4: when [split] cuts a range, the left part cannot be split again,
    both parts hold at least one integer, and the right part is shorter
    than the range by [chunk_size]; so only the right part ever needs
    another cut. *)
Theorem split_left_is_final (r left right : Range.t)
  (Hsplit : Range.split r = Some (left, right)) :
  Range.split left = None /\
  0 < Range.size left /\
  0 < Range.size right /\
  Range.size right = Range.size r - chunk_size.
Proof.
  unfold Range.split in Hsplit.
  destruct (Range.size r <=? chunk_size) eqn:E; [discriminate|].
  apply Z.leb_gt in E. injection Hsplit as <- <-.
  assert (Hleft : Range.size (Range.mk (Range.begin r)
                                (to_int (Range.begin r + chunk_size)))
                  = chunk_size).
  { unfold Range.size. cbn [Range.begin Range.end_].
    rewrite to_int_sub_l.
    replace (Range.begin r + chunk_size - Range.begin r) with chunk_size by lia.
    reflexivity. }
  assert (Hright : Range.size (Range.mk (to_int (Range.begin r + chunk_size))
                                 (Range.end_ r))
                   = Range.size r - chunk_size).
  { unfold Range.size in *. cbn [Range.begin Range.end_].
    rewrite to_int_sub_r.
    replace (Range.end_ r - (Range.begin r + chunk_size))
      with (Range.end_ r - Range.begin r + - chunk_size) by lia.
    pose proof (to_int_range (Range.end_ r - Range.begin r)) as Hr.
    rewrite to_int_shift
      by (unfold int_range, int_min, int_max, chunk_size in *; lia).
    lia. }
  rewrite Hleft, Hright.
  split; [apply split_none; rewrite Hleft; lia|].
  unfold chunk_size in *. lia.
Qed.

Lemma split_left_is_final_witness :
  Range.split (Range.mk 0 1000000) = None /\
  0 < Range.size (Range.mk 0 1000000) /\
  0 < Range.size (Range.mk 1000000 2500000) /\
  Range.size (Range.mk 1000000 2500000) = Range.size (Range.mk 0 2500000) - chunk_size.
Proof.
  apply (split_left_is_final (Range.mk 0 2500000)). reflexivity.
Defined.

(** ** The read interval of a chunk *)

(** X5: for a file whose size is not negative and a search range of
    offsets that ends at least [border_size] below [int_max], the
    constructor of a chunk keeps the search range, leaves the contents
    empty, and gives a read interval that lies in the bytes of the file, is
    at most [2 * border_size] offsets longer than the search interval, and
    contains every offset of the file that is within [border_size] of an
    offset of the search interval. *)
Theorem read_interval_spec (file : File.t) (search : Range.t)
  (Hfile : 0 <= File.size file)
  (Hsearch : 0 <= Range.begin search <= Range.end_ search)
  (Hroom : Range.end_ search <= int_max - border_size) :
  let chunk := FileChunk.make file search in
  FileChunk.search chunk = search /\
  FileChunk.contents chunk = [] /\
  FileChunk.read chunk
  = Range.mk (Z.max (Range.begin search - border_size) 0)
             (Z.min (Range.end_ search + border_size) (File.size file)) /\
  0 <= Range.begin (FileChunk.read chunk) /\
  Range.end_ (FileChunk.read chunk) <= File.size file /\
  Range.size (FileChunk.read chunk) <= Range.size search + 2 * border_size /\
  (forall x y,
      Range.mem x search ->
      x - border_size <= y <= x + border_size ->
      0 <= y < File.size file ->
      Range.mem y (FileChunk.read chunk)).
Proof.
  cbv zeta. split; [reflexivity|]. split; [reflexivity|].
  rewrite make_read by lia. split; [reflexivity|].
  unfold Range.size, Range.mem. cbn [Range.begin Range.end_].
  unfold int_max, border_size in *.
  rewrite !to_int_small by (unfold int_range, int_min, int_max; lia).
  split; [lia|]. split; [lia|]. split; [lia|].
  intros x y Hx Hy H0. lia.
Qed.

Lemma read_interval_spec_witness :
  let chunk := FileChunk.make (File.mk (lit "f") 30) (Range.mk 10 20) in
  FileChunk.search chunk = Range.mk 10 20 /\
  FileChunk.contents chunk = [] /\
  FileChunk.read chunk
  = Range.mk (Z.max (10 - border_size) 0) (Z.min (20 + border_size) 30) /\
  0 <= Range.begin (FileChunk.read chunk) /\
  Range.end_ (FileChunk.read chunk) <= 30 /\
  Range.size (FileChunk.read chunk) <= Range.size (Range.mk 10 20) + 2 * border_size /\
  (forall x y,
      Range.mem x (Range.mk 10 20) ->
      x - border_size <= y <= x + border_size ->
      0 <= y < 30 ->
      Range.mem y (FileChunk.read chunk)).
Proof.
  apply (read_interval_spec (File.mk (lit "f") 30) (Range.mk 10 20));
    vm_compute; try split; discriminate.
Defined.

(** ** The chunks of a file, in closed form *)

Lemma chunks_loop_closed (file : File.t) (m : nat) :
  forall (fuel j : nat) (front : list FileChunk.t),
    (m < fuel)%nat ->
    File.size file <= int_max ->
    int_min <= File.size file - Z.of_nat j * chunk_size ->
    File.size file - Z.of_nat j * chunk_size <= (Z.of_nat m + 1) * chunk_size ->
    (m = 0%nat \/ Z.of_nat m * chunk_size < File.size file - Z.of_nat j * chunk_size) ->
    chunks_loop fuel file front
      (FileChunk.make file (Range.mk (Z.of_nat j * chunk_size) (File.size file)))
    = Return (front ++ map (nth_chunk file) (seq j (S m))).
Proof.
  induction m as [|m IH]; intros fuel j front Hfuel Hmax Hmin Hle Hgt;
    (destruct fuel as [|fuel]; [lia|]); cbn [chunks_loop FileChunk.make FileChunk.search];
    assert (Hsize : Range.size (Range.mk (Z.of_nat j * chunk_size) (File.size file))
                    = File.size file - Z.of_nat j * chunk_size)
      by (unfold Range.size; cbn [Range.begin Range.end_]; apply to_int_small;
          unfold int_range, int_min, int_max, chunk_size in *; lia).
  - rewrite split_none by (rewrite Hsize; lia).
    cbn [seq map]. unfold nth_chunk. rewrite Z.min_r by (unfold chunk_size in *; lia).
    reflexivity.
  - assert (Hbig : chunk_size < File.size file - Z.of_nat j * chunk_size)
      by (unfold chunk_size in *; lia).
    rewrite split_some by (rewrite Hsize; lia).
    cbn [Range.begin Range.end_].
    rewrite to_int_small
      by (unfold int_range, int_min, int_max, chunk_size in *; lia).
    replace (Z.of_nat j * chunk_size + chunk_size)
      with (Z.of_nat (S j) * chunk_size) by lia.
    rewrite IH by (unfold int_min, chunk_size in *; lia).
    rewrite <- app_assoc. cbn [app]. f_equal.
    change (seq j (S (S m))) with (j :: seq (S j) (S m)). cbn [map].
    f_equal. unfold nth_chunk. rewrite Z.min_l by (unfold chunk_size in *; lia).
    replace ((Z.of_nat j + 1) * chunk_size)
      with (Z.of_nat (S j) * chunk_size) by lia.
    reflexivity.
Qed.

Lemma chunk_count_bounds (size : Z) :
  1 <= chunk_count size /\
  size <= chunk_count size * chunk_size /\
  (chunk_count size = 1 \/ (chunk_count size - 1) * chunk_size < size) /\
  chunk_count size - 1 <= Z.max 0 (size / chunk_size).
Proof.
  unfold chunk_count, chunk_size.
  Z.div_mod_to_equations. lia.
Qed.

Lemma chunks_closed (file : File.t) :
  int_range (File.size file) ->
  chunks file =
  Return (map (nth_chunk file)
              (seq 0 (Z.to_nat (chunk_count (File.size file))))).
Proof.
  intros Hint.
  pose proof (chunk_count_bounds (File.size file)) as (H1 & Hle & Hgt & Hfuel).
  unfold chunks.
  replace (Range.size (Range.mk 0 (File.size file))) with (File.size file)
    by (unfold Range.size; cbn [Range.begin Range.end_];
        rewrite Z.sub_0_r; symmetry; now apply to_int_small).
  replace (Z.to_nat (chunk_count (File.size file)))
    with (S (Z.to_nat (chunk_count (File.size file) - 1))) by lia.
  unfold int_range in Hint.
  apply (chunks_loop_closed file _ _ 0%nat []).
  - assert (0 <= File.size file / chunk_size \/ File.size file / chunk_size < 0)
      by lia.
    lia.
  - lia.
  - change (Z.of_nat 0 * chunk_size) with 0. lia.
  - rewrite Z2Nat.id by lia. unfold chunk_size in *. lia.
  - rewrite Z2Nat.id by lia. unfold chunk_size in *. lia.
Qed.

Lemma chunks_small (file : File.t) :
  int_range (File.size file) ->
  File.size file <= chunk_size ->
  chunks file = Return [FileChunk.make file (Range.mk 0 (File.size file))].
Proof.
  intros Hint Hsmall. rewrite chunks_closed by assumption.
  assert (chunk_count (File.size file) = 1) as ->.
  { unfold chunk_count, chunk_size in *. Z.div_mod_to_equations. lia. }
  change (Z.to_nat 1) with 1%nat. cbn [seq map]. unfold nth_chunk.
  change (Z.of_nat 0 * chunk_size) with 0.
  change ((Z.of_nat 0 + 1) * chunk_size) with chunk_size.
  rewrite Z.min_r by lia. reflexivity.
Qed.

(** X6: [chunks] returns, for a file whose size is an [int], the chunks
    number 0, 1, ... up to [chunk_count - 1]: the chunk number [k] searches
    from [k * chunk_size] to [(k + 1) * chunk_size], the last one to the
    end of the file; a file of at most [chunk_size] bytes, an empty file
    and a file of negative size have one chunk. *)
Theorem chunks_closed_form (file : File.t)
  (Hint : int_range (File.size file)) :
  chunks file =
  Return (map (nth_chunk file)
              (seq 0 (Z.to_nat (chunk_count (File.size file))))) /\
  (File.size file <= chunk_size ->
   chunks file = Return [FileChunk.make file (Range.mk 0 (File.size file))]).
Proof. split; [now apply chunks_closed | now apply chunks_small]. Qed.

Lemma chunks_closed_form_witness :
  chunks (File.mk (lit "a.txt") 2500000) =
  Return (map (nth_chunk (File.mk (lit "a.txt") 2500000))
              (seq 0 (Z.to_nat (chunk_count 2500000)))).
Proof.
  apply (chunks_closed_form (File.mk (lit "a.txt") 2500000)).
  vm_compute. split; discriminate.
Defined.

(** X7: for a file whose size is an [int], a chunk that [fetch_contents]
    has filled holds exactly [read.size()] characters and never more than
    [chunk_size + 2 * border_size]. *)
Theorem chunk_buffer_bound (fs : FileSystem) (file : File.t)
  (Hint : int_range (File.size file)) :
  exists l,
    chunks file = Return l /\
    forall chunk fetched,
      In chunk l ->
      FileChunk.fetch_contents fs chunk = Return fetched ->
      size_of (FileChunk.contents fetched) = Range.size (FileChunk.read chunk) /\
      size_of (FileChunk.contents fetched) <= chunk_size + 2 * border_size.
Proof.
  eexists. split; [now apply chunks_closed|].
  intros chunk fetched Hin Hfetch.
  apply in_map_iff in Hin as (k & Hk & Hseq).
  apply in_seq in Hseq.
  pose proof (chunk_count_bounds (File.size file)) as (H1 & Hle & Hgt & _).
  unfold FileChunk.fetch_contents in Hfetch.
  destruct (_ <? 0) eqn:En; [discriminate|]. apply Z.ltb_ge in En.
  injection Hfetch as <-. cbn [FileChunk.contents].
  unfold size_of. rewrite read_at_length, Z2Nat.id by lia.
  split; [reflexivity|]. subst chunk.
  revert En.
  unfold nth_chunk, FileChunk.make, Range.clamp, Range.extend, Range.size.
  cbn [FileChunk.read Range.begin Range.end_].
  unfold int_range, int_min, int_max, border_size, chunk_size in *.
  assert (Hk0 : 0 <= Z.of_nat k) by lia.
  assert (Hk1 : Z.of_nat k < chunk_count (File.size file)) by lia.
  destruct (Z_le_gt_dec (File.size file) 1000000) as [Hs | Hs].
  - assert (chunk_count (File.size file) = 1) as Hc by lia.
    assert (Z.of_nat k = 0) as -> by lia.
    change (0 * 1000000) with 0. change ((0 + 1) * 1000000) with 1000000.
    rewrite (Z.min_r 1000000 (File.size file)) by lia.
    rewrite (to_int_small (0 - 3)), (to_int_small (File.size file + 3))
      by (unfold int_range, int_min, int_max; lia).
    change (Z.max (0 - 3) 0) with 0. rewrite Z.sub_0_r.
    rewrite (Z.min_r (File.size file + 3) (File.size file)) by lia.
    rewrite to_int_small by (unfold int_range, int_min, int_max; lia).
    lia.
  - assert (Hb : Z.of_nat k * 1000000 < File.size file) by lia.
    rewrite (to_int_small (Z.of_nat k * 1000000 - 3))
      by (unfold int_range, int_min, int_max; lia).
    set (e := Z.min ((Z.of_nat k + 1) * 1000000) (File.size file)).
    assert (He : Z.of_nat k * 1000000 < e <= File.size file) by (subst e; lia).
    assert (He' : e <= (Z.of_nat k + 1) * 1000000) by (subst e; lia).
    destruct (Z_le_gt_dec (e + 3) 2147483647) as [Hfit | Hover].
    + rewrite (to_int_small (e + 3))
        by (unfold int_range, int_min, int_max; lia).
      rewrite to_int_small by (unfold int_range, int_min, int_max; lia).
      lia.
    + assert (Hwrap : to_int (e + 3) = e + 3 - 4294967296)
        by (unfold to_int; Z.div_mod_to_equations; lia).
      rewrite Hwrap.
      rewrite (Z.min_l (e + 3 - 4294967296) (File.size file)) by lia.
      assert (Hsz : to_int (e + 3 - 4294967296 - Z.max (Z.of_nat k * 1000000 - 3) 0)
                    = e + 3 - Z.max (Z.of_nat k * 1000000 - 3) 0)
        by (unfold to_int; Z.div_mod_to_equations; lia).
      rewrite Hsz. lia.
Qed.

Lemma chunk_buffer_bound_witness :
  exists l,
    chunks (File.mk (lit "a.txt") 3) = Return l /\
    forall chunk fetched,
      In chunk l ->
      FileChunk.fetch_contents (single_file (lit "a.txt") (lit "abc")) chunk
      = Return fetched ->
      size_of (FileChunk.contents fetched) = Range.size (FileChunk.read chunk) /\
      size_of (FileChunk.contents fetched) <= chunk_size + 2 * border_size.
Proof.
  apply (chunk_buffer_bound (single_file (lit "a.txt") (lit "abc"))
           (File.mk (lit "a.txt") 3)).
  vm_compute. split; discriminate.
Defined.

(** X8: a file that cannot be opened gets size [-1] and a single chunk
    whose read interval is inverted; searching that chunk throws
    [std::length_error] before anything is read. *)
Theorem unreadable_file_throws (fs : FileSystem) (path s : std_string)
  (Hdata : file_data fs path = None) :
  let file := File.make fs path in
  File.size file = -1 /\
  chunks file = Return [FileChunk.make file (Range.mk 0 (-1))] /\
  FileChunk.read (FileChunk.make file (Range.mk 0 (-1))) = Range.mk 0 (-1) /\
  search fs (FileChunk.make file (Range.mk 0 (-1))) s = Throw length_error.
Proof.
  cbv zeta. unfold File.make. rewrite Hdata. cbn [File.size].
  repeat split; reflexivity.
Qed.

Lemma unreadable_file_throws_witness :
  search (single_file (lit "a.txt") (lit "abc"))
         (FileChunk.make (File.make (single_file (lit "a.txt") (lit "abc"))
                                    (lit "b.txt"))
                         (Range.mk 0 (-1)))
         (lit "abc")
  = Throw length_error.
Proof.
  apply (unreadable_file_throws (single_file (lit "a.txt") (lit "abc"))
           (lit "b.txt") (lit "abc")).
  reflexivity.
Defined.

(** ** The context functions on any index *)

(** X9: [prefix] on every [int] index.  For an index inside the contents
    it returns the at most [border_size] characters that end there; for a
    negative index from [int_min + border_size] on it returns the whole
    contents; up to [border_size] places beyond the end it returns the
    characters from [index - border_size] on; further out it throws
    [std::out_of_range].  Below [int_min + border_size] the subtraction
    [index - border_size] wraps around to a large offset, and [prefix]
    throws [std::out_of_range] unless the contents reach up to
    [border_size] below [int_max]. *)
Theorem prefix_behaviour (contents : std_string) (index : Z)
  (Hindex : int_range index)
  (Hsize : size_of contents <= int_max) :
  (int_min + border_size <= index < 0 -> prefix contents index = Return contents) /\
  (0 <= index <= size_of contents ->
   prefix contents index = Return (context_before contents index) /\
   size_of (context_before contents index) = Z.min index border_size /\
   exists before,
     firstn (Z.to_nat index) contents = before ++ context_before contents index) /\
  (size_of contents < index <= size_of contents + border_size ->
   prefix contents index =
   Return (skipn (Z.to_nat (index - border_size)) contents)) /\
  (size_of contents + border_size < index ->
   prefix contents index = Throw out_of_range) /\
  (index < int_min + border_size ->
   size_of contents < int_max - border_size ->
   prefix contents index = Throw out_of_range).
Proof.
  unfold int_range, int_min, int_max in *.
  assert (H0 : 0 <= size_of contents) by (unfold size_of; lia).
  split; [|split; [|split; [|split]]].
  - intros Hneg. unfold prefix, substr, border_size in *.
    rewrite (to_int_small (index - 3))
      by (unfold int_range, int_min, int_max; lia).
    rewrite Z.max_r by lia. rewrite Z.sub_0_r.
    rewrite (to_int_small index) by (unfold int_range, int_min, int_max; lia).
    rewrite (to_size_t_small 0), to_size_t_negative by lia.
    settle_ltb. rewrite Z.min_r by lia. cbn [Z.to_nat skipn].
    rewrite Z.sub_0_r. unfold size_of. rewrite Nat2Z.id.
    now rewrite firstn_all.
  - intros Hin. split; [apply prefix_spec; unfold int_max; lia|]. split.
    + unfold context_before, size_of, border_size in *.
      rewrite length_skipn, length_firstn. lia.
    + exists (firstn (Z.to_nat (index - border_size))
                     (firstn (Z.to_nat index) contents)).
      unfold context_before. now rewrite firstn_skipn.
  - intros Hout. unfold prefix, substr, border_size in *.
    rewrite (to_int_small (index - 3))
      by (unfold int_range, int_min, int_max; lia).
    destruct (Z_le_gt_dec 3 index) as [H3 | H3].
    + rewrite Z.max_l by lia.
      rewrite to_int_small by (unfold int_range, int_min, int_max; lia).
      rewrite !to_size_t_small by lia. settle_ltb.
      rewrite Z.min_r by lia.
      rewrite firstn_all2; [reflexivity|].
      rewrite length_skipn. unfold size_of in *. lia.
    + rewrite Z.max_r by lia.
      rewrite to_int_small by (unfold int_range, int_min, int_max; lia).
      rewrite !to_size_t_small by lia. settle_ltb.
      rewrite Z.min_r by lia.
      replace (Z.to_nat (index - 3)) with 0%nat by lia.
      cbn [Z.to_nat skipn]. rewrite firstn_all2; [reflexivity|].
      unfold size_of in *. lia.
  - intros Hfar. unfold prefix, substr, border_size in *.
    rewrite (to_int_small (index - 3))
      by (unfold int_range, int_min, int_max; lia).
    rewrite Z.max_l by lia.
    rewrite to_int_small by (unfold int_range, int_min, int_max; lia).
    rewrite !to_size_t_small by lia. settle_ltb. reflexivity.
  - intros Hlow Hroom. unfold prefix, substr, border_size in *.
    assert (Hwrap : to_int (index - 3) = index - 3 + 4294967296)
      by (unfold to_int; Z.div_mod_to_equations; lia).
    rewrite Hwrap. rewrite Z.max_l by lia.
    rewrite (to_size_t_small (index - 3 + 4294967296)) by lia.
    settle_ltb. reflexivity.
Qed.

Lemma prefix_behaviour_witness :
  prefix (lit "abcdef") 5 = Return (context_before (lit "abcdef") 5) /\
  size_of (context_before (lit "abcdef") 5) = Z.min 5 border_size /\
  exists before,
    firstn (Z.to_nat 5) (lit "abcdef") = before ++ context_before (lit "abcdef") 5.
Proof.
  apply (prefix_behaviour (lit "abcdef") 5);
    unfold int_range, int_min, int_max, size_of; simpl; lia.
Defined.

(** X10: [suffix] on every [int] index.  For an index inside the contents
    it returns the at most [border_size] characters that begin there, none
    at the end; for a negative index and for an index beyond the end it
    throws [std::out_of_range]. *)
Theorem suffix_behaviour (contents : std_string) (index : Z)
  (Hindex : int_range index)
  (Hsize : size_of contents <= int_max) :
  (0 <= index <= size_of contents ->
   suffix contents index = Return (context_after contents index) /\
   size_of (context_after contents index)
   = Z.min border_size (size_of contents - index) /\
   exists after,
     skipn (Z.to_nat index) contents = context_after contents index ++ after) /\
  (index < 0 \/ size_of contents < index ->
   suffix contents index = Throw out_of_range).
Proof.
  unfold int_range, int_min, int_max in *.
  assert (H0 : 0 <= size_of contents) by (unfold size_of; lia).
  repeat split.
  - apply suffix_spec; unfold npos; lia.
  - unfold context_after, size_of, border_size in *.
    rewrite length_firstn, length_skipn. lia.
  - exists (skipn (Z.to_nat border_size) (skipn (Z.to_nat index) contents)).
    unfold context_after. now rewrite firstn_skipn.
  - intros [Hneg | Hout]; unfold suffix, substr, border_size.
    + rewrite to_size_t_negative by lia. settle_ltb. reflexivity.
    + rewrite to_size_t_small by lia. settle_ltb. reflexivity.
Qed.

Lemma suffix_behaviour_witness :
  suffix (lit "abcdef") 5 = Return (context_after (lit "abcdef") 5) /\
  size_of (context_after (lit "abcdef") 5) = Z.min border_size (6 - 5) /\
  exists after,
    skipn (Z.to_nat 5) (lit "abcdef") = context_after (lit "abcdef") 5 ++ after.
Proof.
  apply (suffix_behaviour (lit "abcdef") 5);
    unfold int_range, int_min, int_max, size_of; simpl; lia.
Defined.

(** ** What escaping leaves *)

Lemma escape_spec_clean (x c : ascii) :
  In c (escape_spec x) -> whitespace c = false.
Proof.
  unfold escape_spec, whitespace.
  destruct (Ascii.eqb x newline) eqn:En.
  - intros [<- | [<- | []]]; reflexivity.
  - destruct (Ascii.eqb x tab) eqn:Et.
    + intros [<- | [<- | []]]; reflexivity.
    + intros [<- | []]. now rewrite En, Et.
Qed.

Lemma escape_spec_plain (c : ascii) :
  whitespace c = false -> escape_spec c = [c].
Proof.
  unfold escape_spec, whitespace. intros H.
  apply orb_false_iff in H as [-> ->]. reflexivity.
Qed.

Lemma transform_is_spec (s : std_string) : transform s = transform_spec s.
Proof. unfold transform. now rewrite transform_loop_spec. Qed.

Lemma transform_clean (s : std_string) (c : ascii) :
  In c (transform s) -> whitespace c = false.
Proof.
  rewrite transform_is_spec. unfold transform_spec.
  intros H. apply in_concat in H as (l & Hl & Hc).
  apply in_map_iff in Hl as (x & <- & _).
  eapply escape_spec_clean; eassumption.
Qed.

Lemma transform_plain (s : std_string) :
  (forall c, In c s -> whitespace c = false) -> transform s = s.
Proof.
  rewrite transform_is_spec. unfold transform_spec.
  induction s as [|c s IH]; intros H; cbn [map concat]; [reflexivity|].
  rewrite escape_spec_plain by (apply H; now left).
  rewrite IH by (intros x Hx; apply H; now right). reflexivity.
Qed.

(** X11: the result of [transform] holds no newline and no tab; a string
    without newline and tab, and no other, is returned as it is; applying
    [transform] twice gives the same as applying it once. *)
Theorem transform_removes_whitespace (s : std_string) :
  (forall c, In c (transform s) -> c <> newline /\ c <> tab) /\
  (transform s = s <-> forall c, In c s -> c <> newline /\ c <> tab) /\
  transform (transform s) = transform s.
Proof.
  assert (Hws : forall c, whitespace c = false <-> c <> newline /\ c <> tab).
  { intros c. unfold whitespace. rewrite orb_false_iff.
    rewrite <- !not_true_iff_false, !Ascii.eqb_eq. tauto. }
  split; [intros c Hc; apply Hws; eapply transform_clean; eassumption|].
  split; [split|].
  - intros Heq c Hc. apply Hws. rewrite <- Heq in Hc.
    eapply transform_clean; eassumption.
  - intros H. apply transform_plain. intros c Hc. apply Hws. now apply H.
  - apply transform_plain. intros c Hc. eapply transform_clean; eassumption.
Qed.

Lemma escape_spec_exact_length (c : ascii) :
  length (escape_spec c) = if whitespace c then 2%nat else 1%nat.
Proof.
  unfold escape_spec, whitespace.
  destruct (Ascii.eqb c newline); [reflexivity|].
  destruct (Ascii.eqb c tab); reflexivity.
Qed.

(** X12: [transform] lengthens a string by one character for each newline
    and each tab in it; so the result is at least as long as the string and
    at most twice as long. *)
Theorem transform_exact_length (s : std_string) :
  size_of (transform s) = size_of s + size_of (filter whitespace s) /\
  size_of s <= size_of (transform s) <= 2 * size_of s.
Proof.
  assert (H : size_of (transform s) = size_of s + size_of (filter whitespace s)).
  { rewrite transform_is_spec. unfold transform_spec, size_of.
    induction s as [|c s IH]; [reflexivity|].
    cbn [map concat filter]. rewrite length_app, escape_spec_exact_length.
    destruct (whitespace c); cbn [length]; lia. }
  split; [exact H|].
  pose proof (filter_length_le whitespace s). unfold size_of in *. lia.
Qed.

(** ** The matcher on any chunk *)

(** X13: on contents that a [std::string] can hold, [matches] ends, and it
    builds one record for each index of the contents at which the string
    occurs and that lies from the local index of [search.begin] up to, but
    not including, the local index of [search.end]; it builds them from
    left to right and throws as soon as building one of them throws. *)
Theorem matcher_visits_occurrences (chunk : FileChunk.t) (s : std_string)
  (Hsize : size_of (FileChunk.contents chunk) < npos) :
  let contents := FileChunk.contents chunk in
  let found := occurrences contents s (first_index chunk) (limit_index chunk) in
  matches chunk s = for_each (make_match chunk s) found /\
  matches chunk s <> OutOfFuel /\
  StronglySorted Z.lt found /\
  (forall p, In p found <->
             first_index chunk <= p < limit_index chunk /\
             occurs_at contents s p).
Proof.
  cbv zeta. split; [now apply matches_eq|].
  split; [now apply matches_terminates|].
  split; [apply occurrences_sorted|].
  intros p. apply in_occurrences, to_size_t_nonneg.
Qed.

Lemma matcher_visits_occurrences_witness :
  let chunk := FileChunk.mk (File.mk (lit "f") 30) (Range.mk 10 20)
                            (Range.mk 7 23) (lit "yyyyxyyyxyyyyyyy") in
  let found := occurrences (lit "yyyyxyyyxyyyyyyy") (lit "x")
                 (first_index chunk) (limit_index chunk) in
  matches chunk (lit "x") = for_each (make_match chunk (lit "x")) found /\
  matches chunk (lit "x") <> OutOfFuel /\
  StronglySorted Z.lt found /\
  (forall p, In p found <->
             first_index chunk <= p < limit_index chunk /\
             occurs_at (lit "yyyyxyyyxyyyyyyy") (lit "x") p).
Proof.
  apply (matcher_visits_occurrences
           (FileChunk.mk (File.mk (lit "f") 30) (Range.mk 10 20)
                         (Range.mk 7 23) (lit "yyyyxyyyxyyyyyyy")) (lit "x")).
  vm_compute. reflexivity.
Defined.

Lemma make_match_fields (chunk : FileChunk.t) (s : std_string) (p : Z) (m : Match.t) :
  make_match chunk s p = Return m ->
  Match.path m = File.path (FileChunk.file chunk) /\
  Match.position m = to_int p /\
  exists pre suf,
    Match.prefix m = transform pre /\ Match.suffix m = transform suf.
Proof.
  unfold make_match. intros H.
  destruct (prefix _ _) as [pre | |]; cbn [bind] in H; try discriminate.
  destruct (suffix _ _) as [suf | |]; cbn [bind] in H; try discriminate.
  injection H as <-. cbn [Match.path Match.position Match.prefix Match.suffix].
  repeat split; eauto.
Qed.

(** X14: when [matches] returns, the positions of its records are, in
    increasing order and each once, exactly the indices of the contents at
    which the string occurs and that lie between the local indices of the
    search interval; they are indices of the contents, whatever offset the
    contents were read from.  Every record carries the path of the file. *)
Theorem returned_positions (chunk : FileChunk.t) (s : std_string)
  (ms : list Match.t)
  (Hsize : size_of (FileChunk.contents chunk) <= int_max)
  (Hreturn : matches chunk s = Return ms) :
  StronglySorted Z.lt (map Match.position ms) /\
  (forall p, In p (map Match.position ms) <->
             first_index chunk <= p < limit_index chunk /\
             occurs_at (FileChunk.contents chunk) s p) /\
  Forall (fun m => Match.path m = File.path (FileChunk.file chunk)) ms.
Proof.
  assert (Hnpos : size_of (FileChunk.contents chunk) < npos)
    by (unfold int_max, npos in *; lia).
  assert (Hpos : map Match.position ms =
                 occurrences (FileChunk.contents chunk) s
                   (first_index chunk) (limit_index chunk)).
  { rewrite (matches_positions chunk s ms Hnpos Hreturn).
    rewrite <- (map_id (occurrences _ _ _ _)) at 2.
    apply map_ext_in. intros p Hp.
    apply in_occurrences in Hp as [_ [Hp _]]; [|apply to_size_t_nonneg].
    apply to_int_small. unfold int_range, int_min, int_max in *. lia. }
  rewrite Hpos. split; [apply occurrences_sorted|].
  split; [intros p; apply in_occurrences, to_size_t_nonneg|].
  clear Hpos. rewrite matches_eq in Hreturn by assumption.
  apply for_each_inv in Hreturn.
  induction Hreturn as [|p m ps ms' Hm _ IH]; [constructor|].
  constructor; [|exact IH]. now apply make_match_fields in Hm.
Qed.

Lemma returned_positions_witness :
  let chunk := FileChunk.mk (File.mk (lit "f") 30) (Range.mk 10 20)
                            (Range.mk 7 23) (lit "yyyyyyyyxyyyyyyy") in
  let ms := [Match.mk (lit "f") 8 (lit "y") (lit "yyy")] in
  StronglySorted Z.lt (map Match.position ms) /\
  (forall p, In p (map Match.position ms) <->
             first_index chunk <= p < limit_index chunk /\
             occurs_at (lit "yyyyyyyyxyyyyyyy") (lit "x") p) /\
  Forall (fun m => Match.path m = lit "f") ms.
Proof.
  apply (returned_positions
           (FileChunk.mk (File.mk (lit "f") 30) (Range.mk 10 20)
                         (Range.mk 7 23) (lit "yyyyyyyyxyyyyyyy")) (lit "x")).
  - vm_compute. discriminate.
  - vm_compute. reflexivity.
Defined.

(** X16: in a chunk that was read from an offset larger than the length of
    its contents, [matches] throws [std::out_of_range] as soon as the
    string occurs at an index of the search interval: [to_index] turns the
    index of the occurrence into a negative index for [suffix]. *)
Theorem matcher_throws_beyond (chunk : FileChunk.t) (s : std_string) (p : Z)
  (Hsize : size_of (FileChunk.contents chunk) <= int_max)
  (Hbegin : size_of (FileChunk.contents chunk)
            < Range.begin (FileChunk.read chunk) <= int_max)
  (Hp : first_index chunk <= p < limit_index chunk)
  (Hocc : occurs_at (FileChunk.contents chunk) s p) :
  matches chunk s = Throw out_of_range.
Proof. now apply (matches_throws_beyond chunk s p). Qed.

Lemma matcher_throws_beyond_witness :
  matches (FileChunk.mk (File.mk (lit "big.txt") 1000010)
                        (Range.mk 1000000 1000010) (Range.mk 999997 1000010)
                        (lit "yyyyyyyyxyyyy")) (lit "x")
  = Throw out_of_range.
Proof.
  apply (matcher_throws_beyond
           (FileChunk.mk (File.mk (lit "big.txt") 1000010)
                         (Range.mk 1000000 1000010) (Range.mk 999997 1000010)
                         (lit "yyyyyyyyxyyyy")) (lit "x") 8).
  - vm_compute. discriminate.
  - vm_compute. split; [reflexivity | discriminate].
  - vm_compute. split; [discriminate | reflexivity].
  - vm_compute. repeat split; discriminate.
Defined.

(** ** Reading a chunk *)

Lemma read_at_inside (fs : FileSystem) (path data : std_string) (begin : Z) (n : nat) :
  file_data fs path = Some data ->
  0 <= begin -> begin + Z.of_nat n <= size_of data ->
  FileChunk.read_at fs path begin n = firstn n (skipn (Z.to_nat begin) data).
Proof.
  intros Hdata Hb He. unfold FileChunk.read_at. rewrite Hdata.
  settle_ltb.
  replace (n - length (firstn n (skipn (Z.to_nat begin) data)))%nat with 0%nat.
  - cbn [repeat]. apply app_nil_r.
  - rewrite length_firstn, length_skipn. unfold size_of in *. lia.
Qed.

(** X17: [fetch_contents] throws [std::length_error] when [read.size()]
    is negative; otherwise it keeps the file and the two intervals and
    fills the contents with exactly [read.size()] characters.  When the
    read interval is not inverted and lies in the bytes of the file, the
    character at index [i] of the contents is the byte at offset
    [read.begin + i] of the file; when the file cannot be opened, all
    characters are zero. *)
Theorem fetch_contents_spec (fs : FileSystem) (chunk : FileChunk.t) :
  let read := FileChunk.read chunk in
  let path := File.path (FileChunk.file chunk) in
  (Range.size read < 0 ->
   FileChunk.fetch_contents fs chunk = Throw length_error) /\
  (0 <= Range.size read ->
   exists fetched,
     FileChunk.fetch_contents fs chunk = Return fetched /\
     FileChunk.file fetched = FileChunk.file chunk /\
     FileChunk.search fetched = FileChunk.search chunk /\
     FileChunk.read fetched = read /\
     size_of (FileChunk.contents fetched) = Range.size read /\
     (forall data,
         file_data fs path = Some data ->
         0 <= Range.begin read -> Range.begin read <= Range.end_ read ->
         Range.end_ read <= size_of data ->
         FileChunk.contents fetched
         = firstn (Z.to_nat (Range.size read))
                  (skipn (Z.to_nat (Range.begin read)) data) /\
         forall i, (i < Z.to_nat (Range.size read))%nat ->
           nth_error (FileChunk.contents fetched) i
           = nth_error data (Z.to_nat (Range.begin read) + i)) /\
     (file_data fs path = None ->
      FileChunk.contents fetched
      = repeat Ascii.zero (Z.to_nat (Range.size read)))).
Proof.
  cbv zeta. unfold FileChunk.fetch_contents. split.
  - intros Hneg. settle_ltb. reflexivity.
  - intros Hpos. settle_ltb. eexists. split; [reflexivity|].
    cbn [FileChunk.file FileChunk.search FileChunk.read FileChunk.contents].
    split; [reflexivity|]. split; [reflexivity|]. split; [reflexivity|].
    split; [unfold size_of; rewrite read_at_length; lia|].
    split.
    + intros data Hdata Hb Hle He.
      assert (Hfit : Range.size (FileChunk.read chunk)
                     <= Range.end_ (FileChunk.read chunk)
                        - Range.begin (FileChunk.read chunk))
        by (apply to_int_le_nonneg; lia).
      rewrite (read_at_inside fs _ data) by (assumption || lia).
      split; [reflexivity|]. intros i Hi.
      rewrite nth_error_firstn.
      replace (i <? Z.to_nat (Range.size (FileChunk.read chunk)))%nat with true
        by (symmetry; apply Nat.ltb_lt; lia).
      now rewrite nth_error_skipn.
    + intros Hnone. unfold FileChunk.read_at. rewrite Hnone.
      cbn [app length]. now rewrite Nat.sub_0_r.
Qed.

Lemma fetch_contents_spec_witness :
  FileChunk.fetch_contents newlines_file
    (FileChunk.make (File.mk (lit "notes.txt") (-1)) (Range.mk 0 (-1)))
  = Throw length_error /\
  exists fetched,
    FileChunk.fetch_contents newlines_file
      (FileChunk.make (File.mk (lit "notes.txt") 6) (Range.mk 3 5))
    = Return fetched /\
    size_of (FileChunk.contents fetched) = 6.
Proof.
  split.
  - apply (proj1 (fetch_contents_spec newlines_file
                    (FileChunk.make (File.mk (lit "notes.txt") (-1))
                                    (Range.mk 0 (-1))))).
    vm_compute. reflexivity.
  - destruct (proj2 (fetch_contents_spec newlines_file
                       (FileChunk.make (File.mk (lit "notes.txt") 6)
                                       (Range.mk 3 5))))
      as (fetched & Hf & _ & _ & _ & Hsize & _).
    + vm_compute. discriminate.
    + exists fetched. split; [exact Hf | exact Hsize].
Defined.

(** ** A file of one chunk, from the command line to the printed lines *)

Lemma search_small_file (fs : FileSystem) (path s data : std_string) :
  file_data fs path = Some data ->
  size_of data <= chunk_size ->
  search fs (FileChunk.make (File.mk path (size_of data))
                            (Range.mk 0 (size_of data))) s
  = Return (map Match.print
              (map (expected_match path data s)
                   (occurrences data s 0 (size_of data)))).
Proof.
  intros Hdata Hsmall.
  assert (H0 : 0 <= size_of data) by (unfold size_of; lia).
  assert (Hint : forall z, -3 <= z <= size_of data + 3 -> to_int z = z)
    by (intros z Hz; apply to_int_small;
        unfold int_range, int_min, int_max, chunk_size in *; lia).
  unfold search, FileChunk.fetch_contents.
  rewrite make_read
    by (cbn [Range.begin Range.end_];
        unfold int_max, border_size, chunk_size in *; lia).
  cbn [FileChunk.make FileChunk.read FileChunk.file FileChunk.search
       File.size File.path Range.begin Range.end_].
  unfold border_size.
  rewrite Z.max_r by lia. rewrite Z.min_r by lia.
  unfold Range.size. cbn [Range.begin Range.end_]. rewrite Z.sub_0_r.
  rewrite (Hint (size_of data)) by lia.
  settle_ltb. cbn [bind].
  rewrite (read_at_inside fs path data) by (assumption || lia).
  change (Z.to_nat 0) with 0%nat. cbn [skipn].
  replace (Z.to_nat (size_of data)) with (length data)
    by (unfold size_of; lia).
  rewrite firstn_all.
  rewrite matches_first;
    [| reflexivity
     | cbn [FileChunk.contents]; unfold chunk_size, int_max in *; lia ].
  cbn [bind FileChunk.contents FileChunk.file File.path].
  unfold first_index, limit_index, to_index.
  cbn [FileChunk.read FileChunk.search Range.begin Range.end_].
  rewrite !Z.sub_0_r.
  change (to_int 0) with 0. rewrite (Hint (size_of data)) by lia.
  rewrite !to_size_t_small by (unfold chunk_size in *; lia).
  reflexivity.
Qed.

(** X15: for a regular file of at most [chunk_size] bytes, the program
    exits with success after one task that prints, from left to right, one
    line for each offset of the file at which the string occurs: the line
    carries that offset and the escaped context of the occurrence, taken
    from the bytes of the file.  No occurrence is left out and none is
    printed twice. *)
Theorem small_file_search (fs : FileSystem) (prog path s data : std_string)
  (Hregular : is_regular_file fs path = true)
  (Hdata : file_data fs path = Some data)
  (Hsmall : size_of data <= chunk_size) :
  let found := occurrences data s 0 (size_of data) in
  main fs [prog; path; s]
  = Return (mk_process EXIT_SUCCESS []
              [Return (map Match.print (map (expected_match path data s) found))]) /\
  StronglySorted Z.lt found /\
  (forall p, In p found <-> 0 <= p < size_of data /\ occurs_at data s p).
Proof.
  cbv zeta. split; [|split; [apply occurrences_sorted|]].
  - assert (H0 : 0 <= size_of data) by (unfold size_of; lia).
    unfold main. cbn [length Z.of_nat Pos.of_succ_nat Pos.succ Z.eqb Pos.eqb negb nth].
    unfold files. rewrite Hregular.
    unfold File.make. rewrite Hdata.
    rewrite to_int_small
      by (unfold int_range, int_min, int_max, chunk_size in *; lia).
    cbn [collect_chunks].
    rewrite chunks_small
      by (cbn [File.size]; unfold int_range, int_min, int_max, chunk_size in *; lia).
    cbn [bind app map File.size].
    now rewrite search_small_file.
  - intros p. now apply in_occurrences.
Qed.

Lemma small_file_search_witness :
  main newlines_file [lit "minigrep"; lit "notes.txt"; lit "abc"]
  = Return (mk_process EXIT_SUCCESS []
              [Return (map Match.print
                         (map (expected_match (lit "notes.txt")
                                 ([newline; newline; newline] ++ lit "abc")
                                 (lit "abc"))
                              (occurrences ([newline; newline; newline] ++ lit "abc")
                                 (lit "abc") 0 6)))]).
Proof.
  apply (small_file_search newlines_file (lit "minigrep") (lit "notes.txt")
           (lit "abc") ([newline; newline; newline] ++ lit "abc")).
  - reflexivity.
  - reflexivity.
  - vm_compute. discriminate.
Defined.

(** ** The scan of a chunk, in offsets of the file *)

Lemma starts_with_firstn_iff (s : std_string) :
  forall (m : nat) (t : std_string),
    starts_with s (firstn m t) = true <->
    starts_with s t = true /\ (length s <= m)%nat.
Proof.
  induction s as [|a s IH]; intros m t.
  - cbn. split; [intros _; split; [reflexivity | lia] | reflexivity].
  - destruct m as [|m]; [cbn; split; [discriminate | intros [_ H]; lia]|].
    destruct t as [|b t]; [cbn; split; [discriminate | intros [H _]; discriminate]|].
    cbn [firstn starts_with length]. rewrite !andb_true_iff, IH.
    split; [intros (? & ? & ?) | intros ((? & ?) & ?)]; repeat split; auto; lia.
Qed.

(** X20: let a chunk be built for a search interval inside a file of at
    most [int_max - border_size] bytes and filled by [fetch_contents].  Its
    read interval is the search interval widened by [border_size] on both
    sides and cut to the bytes of the file.  The indices that [matches]
    visits in its contents are exactly those that stand for an offset of
    the search interval at which the string occurs in the file with all its
    characters inside the read interval; the index [p] stands for the
    offset [read.begin + p]. *)
Theorem scan_finds_file_occurrences
  (fs : FileSystem) (file : File.t) (search : Range.t)
  (data s : std_string) (fetched : FileChunk.t)
  (Hdata : file_data fs (File.path file) = Some data)
  (Hsize : File.size file = size_of data)
  (Hroom : File.size file <= int_max - border_size)
  (Hsearch : 0 <= Range.begin search <= Range.end_ search)
  (Hinside : Range.end_ search <= File.size file)
  (Hfetch : FileChunk.fetch_contents fs (FileChunk.make file search)
            = Return fetched) :
  let read := FileChunk.read fetched in
  read = Range.mk (Z.max (Range.begin search - border_size) 0)
                  (Z.min (Range.end_ search + border_size) (File.size file)) /\
  forall p,
    In p (occurrences (FileChunk.contents fetched) s
            (first_index fetched) (limit_index fetched)) <->
    Range.mem (Range.begin read + p) search /\
    occurs_at data s (Range.begin read + p) /\
    Range.begin read + p + size_of s <= Range.end_ read.
Proof.
  cbv zeta.
  assert (Hint : forall z, -3 <= z <= File.size file + 3 -> to_int z = z)
    by (intros z Hz; apply to_int_small;
        unfold int_range, int_min, int_max, border_size in *; lia).
  unfold FileChunk.fetch_contents in Hfetch.
  rewrite make_read in Hfetch by lia.
  cbn [FileChunk.make FileChunk.file FileChunk.search] in Hfetch.
  destruct (_ <? 0) eqn:En; [discriminate|]. apply Z.ltb_ge in En.
  injection Hfetch as <-.
  cbn [FileChunk.read FileChunk.contents FileChunk.file] in *.
  split; [reflexivity|].
  set (read := Range.mk (Z.max (Range.begin search - border_size) 0)
                        (Z.min (Range.end_ search + border_size) (File.size file)))
    in *.
  assert (Hb : Range.begin read = Z.max (Range.begin search - 3) 0) by reflexivity.
  assert (He : Range.end_ read = Z.min (Range.end_ search + 3) (File.size file))
    by reflexivity.
  assert (Hrs : Range.size read = Range.end_ read - Range.begin read)
    by (unfold Range.size; apply Hint; lia).
  rewrite Hrs in *.
  change (Z.max (Range.begin search - border_size) 0) with (Range.begin read).
  rewrite (read_at_inside fs _ data) by (assumption || lia).
  intros p. rewrite in_occurrences by apply to_size_t_nonneg.
  unfold first_index, limit_index, to_index, Range.mem.
  cbn [FileChunk.read FileChunk.search].
  rewrite (Hint (Range.begin search - Range.begin read)) by lia.
  rewrite (Hint (Range.end_ search - Range.begin read)) by lia.
  unfold int_max, border_size in Hroom.
  rewrite !to_size_t_small by lia.
  unfold occurs_at, size_of.
  rewrite length_firstn, length_skipn, skipn_firstn_comm, skipn_skipn.
  rewrite starts_with_firstn_iff.
  unfold size_of in *.
  split.
  - intros (Hp & Hpn & Hs & Hlen).
    replace (Z.to_nat (Range.begin read + p))
      with (Z.to_nat p + Z.to_nat (Range.begin read))%nat by lia.
    split; [lia|]. split; [split; [lia | exact Hs] | lia].
  - intros (Hm & (Ha & Hs) & Hlen).
    replace (Z.to_nat (Range.begin read + p))
      with (Z.to_nat p + Z.to_nat (Range.begin read))%nat in Hs by lia.
    split; [lia|]. split; [lia|]. split; [exact Hs | lia].
Qed.

Lemma scan_finds_file_occurrences_witness :
  exists fetched,
    FileChunk.fetch_contents (single_file (lit "a.txt") (lit "yyyyabcyyyyabcyy"))
      (FileChunk.make (File.mk (lit "a.txt") 16) (Range.mk 8 14))
    = Return fetched /\
    forall p,
      In p (occurrences (FileChunk.contents fetched) (lit "abc")
              (first_index fetched) (limit_index fetched)) <->
      Range.mem (Range.begin (FileChunk.read fetched) + p) (Range.mk 8 14) /\
      occurs_at (lit "yyyyabcyyyyabcyy") (lit "abc")
                (Range.begin (FileChunk.read fetched) + p) /\
      Range.begin (FileChunk.read fetched) + p + 3
      <= Range.end_ (FileChunk.read fetched).
Proof.
  eexists. split; [reflexivity|].
  apply (scan_finds_file_occurrences
           (single_file (lit "a.txt") (lit "yyyyabcyyyyabcyy"))
           (File.mk (lit "a.txt") 16) (Range.mk 8 14)
           (lit "yyyyabcyyyyabcyy") (lit "abc")).
  - reflexivity.
  - reflexivity.
  - vm_compute. discriminate.
  - vm_compute. split; discriminate.
  - vm_compute. discriminate.
  - reflexivity.
Defined.

(** ** The printed lines *)

Lemma string_of_uint_digits (d : Decimal.uint) (c : ascii) :
  In c (lit (NilEmpty.string_of_uint d)) -> c <> newline.
Proof.
  unfold lit.
  induction d as [|d IH|d IH|d IH|d IH|d IH|d IH|d IH|d IH|d IH|d IH];
    cbn [NilEmpty.string_of_uint list_ascii_of_string];
    [intros [] | intros [<- | H]; [discriminate | now apply IH] ..].
Qed.

Lemma string_of_int_digits (z : Z) (c : ascii) :
  In c (lit (NilEmpty.string_of_int (Z.to_int z))) -> c <> newline.
Proof.
  unfold NilEmpty.string_of_int.
  destruct (Z.to_int z) as [d | d].
  - apply (string_of_uint_digits d).
  - unfold lit. cbn [list_ascii_of_string].
    intros [<- | H]; [discriminate | now apply (string_of_uint_digits d)].
Qed.

Lemma matches_loop_records (chunk : FileChunk.t) (s : std_string)
  (P : Match.t -> Prop) :
  (forall p m, make_match chunk s p = Return m -> P m) ->
  forall (fuel : nat) (pos : Z) (acc ms : list Match.t),
    Forall P acc ->
    matches_loop fuel chunk s pos acc = Return ms ->
    Forall P ms.
Proof.
  intros HP. induction fuel as [|fuel IH]; intros pos acc ms Hacc H;
    [discriminate|].
  cbn [matches_loop] in H. destruct (_ && _).
  - destruct (make_match chunk s pos) as [m | |] eqn:Em; cbn [bind] in H;
      try discriminate.
    eapply IH; [|exact H]. apply Forall_app. split; [exact Hacc|].
    repeat constructor. eapply HP; eassumption.
  - now injection H as <-.
Qed.

(** X19: [search] prints one line for each record of the matcher, and a
    line begins with the path of the file and an opening parenthesis; when
    the path holds no newline, no line holds one, so that each match takes
    one line of the output whatever bytes surround it in the file. *)
Theorem search_prints_single_lines
  (fs : FileSystem) (chunk : FileChunk.t) (s : std_string)
  (lines : list std_string)
  (Hpath : ~ In newline (File.path (FileChunk.file chunk)))
  (Hreturn : search fs chunk s = Return lines) :
  Forall (fun line =>
            ~ In newline line /\
            exists rest,
              line = File.path (FileChunk.file chunk) ++ lit "(" ++ rest)
         lines /\
  exists fetched ms,
    FileChunk.fetch_contents fs chunk = Return fetched /\
    matches fetched s = Return ms /\
    length lines = length ms.
Proof.
  unfold search in Hreturn.
  destruct (FileChunk.fetch_contents fs chunk) as [fetched | |] eqn:Ef;
    cbn [bind] in Hreturn; try discriminate.
  destruct (matches fetched s) as [ms | |] eqn:Em; cbn [bind] in Hreturn;
    try discriminate.
  injection Hreturn as <-.
  split; [|exists fetched, ms; rewrite length_map; auto].
  assert (Hfile : FileChunk.file fetched = FileChunk.file chunk).
  { unfold FileChunk.fetch_contents in Ef. destruct (_ <? 0); [discriminate|].
    now injection Ef as <-. }
  apply Forall_map. unfold matches in Em.
  eapply matches_loop_records; [|constructor|exact Em].
  intros p m Hm. apply make_match_fields in Hm
    as (Hp & _ & pre & suf & Hpre & Hsuf).
  rewrite Hfile in Hp. unfold Match.print. rewrite Hp, Hpre, Hsuf.
  split; [|eexists; reflexivity].
  rewrite !in_app_iff.
  intros [H | [H | [H | [H | [H | [H | H]]]]]].
  - now apply Hpath.
  - destruct H as [H | []]. discriminate.
  - now apply string_of_int_digits in H.
  - destruct H as [H | [H | []]]; discriminate.
  - apply transform_clean in H. discriminate.
  - destruct H as [H | [H | [H | []]]]; discriminate.
  - apply transform_clean in H. discriminate.
Qed.

Lemma search_prints_single_lines_witness :
  Forall (fun line =>
            ~ In newline line /\
            exists rest, line = lit "notes.txt" ++ lit "(" ++ rest)
         [lit "notes.txt(3):\n\n\n..."].
Proof.
  apply (search_prints_single_lines newlines_file
           (FileChunk.make (File.make newlines_file (lit "notes.txt"))
                           (Range.mk 0 6))
           (lit "abc") [lit "notes.txt(3):\n\n\n..."]).
  - vm_compute. intros H.
    repeat (destruct H as [H | H]; [discriminate|]). exact H.
  - reflexivity.
Defined.

(** ** The tasks of a run *)

Lemma collect_chunks_length (fl : list File.t) :
  Forall (fun file => int_range (File.size file)) fl ->
  exists cs,
    collect_chunks fl = Return cs /\
    length cs
    = list_sum (map (fun file => Z.to_nat (chunk_count (File.size file))) fl).
Proof.
  induction 1 as [|file fl Hint _ (more & Hmore & Hlen)]; cbn [collect_chunks].
  - exists []. split; reflexivity.
  - rewrite chunks_closed, Hmore by exact Hint.
    cbn [bind]. eexists. split; [reflexivity|].
    rewrite length_app, length_map, length_seq, Hlen. reflexivity.
Qed.

(** X21: for a path that is a regular file or a directory, the program
    launches [chunk_count] tasks for each file that [files] gives, and
    exits with success; a file of at most [chunk_size] bytes, also an empty
    one or one that cannot be opened, gets one task. *)
Theorem main_task_count (fs : FileSystem) (argv : list std_string)
  (fl : list File.t)
  (Hargc : length argv = 3%nat)
  (Hfiles : files fs (nth 1 argv []) = Some fl) :
  exists run,
    main fs argv = Return run /\
    exit_status run = EXIT_SUCCESS /\
    cerr run = [] /\
    length (futures run)
    = list_sum (map (fun file => Z.to_nat (chunk_count (File.size file))) fl) /\
    Forall (fun file =>
              File.size file <= chunk_size ->
              Z.to_nat (chunk_count (File.size file)) = 1%nat) fl.
Proof.
  destruct (collect_chunks_length fl (files_sizes fs _ fl Hfiles))
    as (cs & Hcs & Hlen).
  unfold main. rewrite Hargc, Hfiles, Hcs.
  cbn [Z.of_nat Pos.of_succ_nat Pos.succ Z.eqb Pos.eqb negb bind].
  eexists. split; [reflexivity|].
  cbn [exit_status cerr futures]. rewrite length_map.
  repeat split; try assumption.
  apply Forall_forall. intros file _ Hsmall.
  unfold chunk_count, chunk_size in *. Z.div_mod_to_equations. lia.
Qed.

Lemma main_task_count_witness :
  exists run,
    main newlines_file [lit "minigrep"; lit "notes.txt"; lit "abc"] = Return run /\
    exit_status run = EXIT_SUCCESS /\
    cerr run = [] /\
    length (futures run)
    = list_sum (map (fun file => Z.to_nat (chunk_count (File.size file)))
                    [File.make newlines_file (lit "notes.txt")]) /\
    Forall (fun file =>
              File.size file <= chunk_size ->
              Z.to_nat (chunk_count (File.size file)) = 1%nat)
           [File.make newlines_file (lit "notes.txt")].
Proof.
  apply (main_task_count newlines_file
           [lit "minigrep"; lit "notes.txt"; lit "abc"]); reflexivity.
Defined.
